(** * vibectl/run: the SSE stream decoder of [src/main.ts]

    A shallow embedding of [processSSEEvent], [parseSSELines],
    [streamTaskOutput], the tail of [run] and the bearer-token redaction, and
    the properties of the specification checked against them.

    JavaScript strings are sequences of UTF-16 code units; a code unit is
    a number of [N].  Values returned by [JSON.parse] are kept dynamically
    typed, as they are at run time: the [as SSEEventData] cast of the source
    checks nothing. *)

From Stdlib Require Import String Ascii.
From Stdlib Require Import List NArith Bool Arith Lia.
From Equations Require Import Equations.
Import ListNotations.

Set Warnings "-register-all".
Open Scope N_scope.
Open Scope list_scope.

(** ** Strings *)

Definition char := N.
Definition jsstring := list char.

(** A string literal of the source, as code units. *)
Definition js (s : String.string) : jsstring :=
  List.map N_of_ascii (String.list_ascii_of_string s).

Definition LF : char := 10.
Definition DQUOTE : char := 34.

(** JSON text written with apostrophes standing for the double quotes. *)
Definition jq (s : String.string) : jsstring :=
  List.map (fun c => if c =? 39 then DQUOTE else c) (js s).

(** One line of a stream: the text followed by a newline. *)
Definition ln (s : String.string) : jsstring := jq s ++ [LF].

Fixpoint str_eqb (a b : jsstring) : bool :=
  match a, b with
  | [], [] => true
  | x :: a', y :: b' => (x =? y) && str_eqb a' b'
  | _, _ => false
  end.

(** [String.prototype.startsWith]. *)
Fixpoint startsWith (s prefix : jsstring) : bool :=
  match prefix, s with
  | [], _ => true
  | p :: prefix', c :: s' => (c =? p) && startsWith s' prefix'
  | _ :: _, [] => false
  end.

(** [String.prototype.substring] with one argument. *)
Definition substring (s : jsstring) (start : nat) : jsstring := skipn start s.

(** [String.prototype.includes]. *)
Fixpoint includes (s sub : jsstring) : bool :=
  startsWith s sub ||
  match s with
  | [] => false
  | _ :: s' => includes s' sub
  end.

(** The white space of ECMAScript (WhiteSpace and LineTerminator): what
    [trim] strips and what [\s] matches. *)
Definition is_ws (c : char) : bool :=
  ((9 <=? c) && (c <=? 13)) || (c =? 32) || (c =? 160) || (c =? 5760)
  || ((8192 <=? c) && (c <=? 8202)) || (c =? 8232) || (c =? 8233)
  || (c =? 8239) || (c =? 8287) || (c =? 12288) || (c =? 65279).

Fixpoint trimStart (s : jsstring) : jsstring :=
  match s with
  | c :: s' => if is_ws c then trimStart s' else s
  | [] => []
  end.

Definition trimEnd (s : jsstring) : jsstring := rev (trimStart (rev s)).

(** [String.prototype.trim]. *)
Definition trim (s : jsstring) : jsstring := trimEnd (trimStart s).

(** [String.prototype.split] with a separator of one code unit: the
    result always has at least one element. *)
Fixpoint split (sep : char) (s : jsstring) : list jsstring :=
  match s with
  | [] => [[]]
  | c :: s' =>
      if c =? sep then [] :: split sep s'
      else match split sep s' with
           | l :: ls => (c :: l) :: ls
           | [] => [[c]]
           end
  end.

(** ** JSON values *)

(** Numbers are IEEE-754 doubles.  The three operations of the engine the
    program reaches them through are kept abstract. *)
Class Numeric := {
  number : Type;
  (** the double denoted by a JSON number token *)
  number_of_literal : jsstring -> number;
  (** [ToBoolean]: false for [+0], [-0] and [NaN] *)
  number_truthy : number -> bool;
  (** [Number::toString] *)
  number_toString : number -> jsstring
}.

(** The outcome of a parsing function: a value and the text left after
    it, a syntax error, or no fuel left (which [parse_value_fuel] excludes
    for the fuel that [JSON_parse] gives). *)
Inductive parsed (A : Type) : Type :=
| Parsed (a : A) (rest : jsstring)
| SyntaxError
| OutOfFuel.
Arguments Parsed {A}.
Arguments SyntaxError {A}.
Arguments OutOfFuel {A}.

Section JSON.

Context {NUM : Numeric}.

(** An object keeps its members in source order; a later duplicate of a
    key overrides an earlier one (see [lookup]). *)
Inductive JSValue : Type :=
| JNull
| JBool (b : bool)
| JNumber (n : number)
| JString (s : jsstring)
| JArray (items : list JSValue)
| JObject (members : list (jsstring * JSValue)).

(** JSON white space: space, tab, line feed, carriage return. *)
Definition json_ws (c : char) : bool :=
  (c =? 32) || (c =? 9) || (c =? 10) || (c =? 13).

Fixpoint skip_ws (s : jsstring) : jsstring :=
  match s with
  | c :: s' => if json_ws c then skip_ws s' else s
  | [] => []
  end.

Definition is_digit (c : char) : bool := (48 <=? c) && (c <=? 57).

Definition hex_digit (c : char) : option N :=
  if is_digit c then Some (c - 48)
  else if (65 <=? c) && (c <=? 70) then Some (c - 55)
  else if (97 <=? c) && (c <=? 102) then Some (c - 87)
  else None.

Definition hex4 (a b c d : char) : option char :=
  match hex_digit a, hex_digit b, hex_digit c, hex_digit d with
  | Some x, Some y, Some z, Some w => Some (x * 4096 + y * 256 + z * 16 + w)
  | _, _, _, _ => None
  end.

(** The single-character escapes of a JSON string. *)
Definition unescape (c : char) : option char :=
  if c =? 34 then Some 34        (* quote *)
  else if c =? 92 then Some 92   (* backslash *)
  else if c =? 47 then Some 47   (* slash *)
  else if c =? 98 then Some 8    (* b: backspace *)
  else if c =? 102 then Some 12  (* f: form feed *)
  else if c =? 110 then Some 10  (* n: line feed *)
  else if c =? 114 then Some 13  (* r: carriage return *)
  else if c =? 116 then Some 9   (* t: tab *)
  else None.

(** The characters of a string, after its opening quote. *)
Fixpoint parse_chars (s : jsstring) : parsed jsstring :=
  match s with
  | [] => SyntaxError
  | c :: s' =>
      if c =? 34 then Parsed [] s'
      else if c =? 92 then
        match s' with
        | e :: s'' =>
            if e =? 117 then
              match s'' with
              | h1 :: h2 :: h3 :: h4 :: s3 =>
                  match hex4 h1 h2 h3 h4 with
                  | Some u =>
                      match parse_chars s3 with
                      | Parsed t r => Parsed (u :: t) r
                      | e => e
                      end
                  | None => SyntaxError
                  end
              | _ => SyntaxError
              end
            else
              match unescape e with
              | Some u =>
                  match parse_chars s'' with
                  | Parsed t r => Parsed (u :: t) r
                  | e => e
                  end
              | None => SyntaxError
              end
        | [] => SyntaxError
        end
      else if c <? 32 then SyntaxError
      else
        match parse_chars s' with
        | Parsed t r => Parsed (c :: t) r
        | e => e
        end
  end.

Fixpoint span_digits (s : jsstring) : jsstring * jsstring :=
  match s with
  | c :: s' =>
      if is_digit c then let (d, r) := span_digits s' in (c :: d, r)
      else ([], s)
  | [] => ([], [])
  end.

(** The token of a number: an optional minus sign, an integer part (a
    single zero, or a non-zero digit followed by digits), an optional
    fraction (a dot and one or more digits) and an optional exponent (e or
    E, an optional sign, one or more digits). *)
Definition number_int (s : jsstring) : parsed jsstring :=
  match s with
  | c :: s' =>
      if c =? 48 then Parsed [c] s'
      else if is_digit c then let (d, r) := span_digits s' in Parsed (c :: d) r
      else SyntaxError
  | [] => SyntaxError
  end.

Definition number_frac (s : jsstring) : parsed jsstring :=
  match s with
  | c :: s' =>
      if c =? 46 then
        match span_digits s' with
        | ([], _) => SyntaxError
        | (d, r) => Parsed (c :: d) r
        end
      else Parsed [] s
  | [] => Parsed [] s
  end.

Definition number_exp (s : jsstring) : parsed jsstring :=
  match s with
  | c :: s' =>
      if (c =? 101) || (c =? 69) then
        let (sign, s'') :=
          match s' with
          | g :: t => if (g =? 43) || (g =? 45) then ([g], t) else ([], s')
          | [] => ([], s')
          end in
        match span_digits s'' with
        | ([], _) => SyntaxError
        | (d, r) => Parsed (c :: sign ++ d) r
        end
      else Parsed [] s
  | [] => Parsed [] s
  end.

Definition number_token (s : jsstring) : parsed jsstring :=
  let (sign, s1) :=
    match s with
    | c :: s' => if c =? 45 then ([c], s') else ([], s)
    | [] => ([], s)
    end in
  match number_int s1 with
  | Parsed i s2 =>
      match number_frac s2 with
      | Parsed f s3 =>
          match number_exp s3 with
          | Parsed e s4 => Parsed (sign ++ i ++ f ++ e) s4
          | err => err
          end
      | err => err
      end
  | err => err
  end.

Definition keyword (k : jsstring) (v : JSValue) (s : jsstring) : parsed JSValue :=
  if startsWith s k then Parsed v (skipn (length k) s) else SyntaxError.

(** The recursive descent of [JSON.parse]; the fuel bounds the recursion
    and [parse_value_fuel] shows that [JSON_fuel] is always enough. *)
Fixpoint parse_value (fuel : nat) (s : jsstring) {struct fuel} : parsed JSValue :=
  match fuel with
  | O => OutOfFuel
  | S fuel' =>
      match skip_ws s with
      | [] => SyntaxError
      | c :: s' =>
          if c =? 123 then
            match skip_ws s' with
            | d :: s'' =>
                if d =? 125 then Parsed (JObject []) s''
                else
                  match parse_members fuel' s' with
                  | Parsed m r => Parsed (JObject m) r
                  | SyntaxError => SyntaxError
                  | OutOfFuel => OutOfFuel
                  end
            | [] => SyntaxError
            end
          else if c =? 91 then
            match skip_ws s' with
            | d :: s'' =>
                if d =? 93 then Parsed (JArray []) s''
                else
                  match parse_elements fuel' s' with
                  | Parsed l r => Parsed (JArray l) r
                  | SyntaxError => SyntaxError
                  | OutOfFuel => OutOfFuel
                  end
            | [] => SyntaxError
            end
          else if c =? 34 then
            match parse_chars s' with
            | Parsed t r => Parsed (JString t) r
            | SyntaxError => SyntaxError
            | OutOfFuel => OutOfFuel
            end
          else if c =? 116 then keyword (js "true") (JBool true) (c :: s')
          else if c =? 102 then keyword (js "false") (JBool false) (c :: s')
          else if c =? 110 then keyword (js "null") JNull (c :: s')
          else
            match number_token (c :: s') with
            | Parsed t r => Parsed (JNumber (number_of_literal t)) r
            | SyntaxError => SyntaxError
            | OutOfFuel => OutOfFuel
            end
      end
  end

with parse_elements (fuel : nat) (s : jsstring) {struct fuel} : parsed (list JSValue) :=
  match fuel with
  | O => OutOfFuel
  | S fuel' =>
      match parse_value fuel' s with
      | Parsed v r =>
          match skip_ws r with
          | c :: r' =>
              if c =? 44 then
                match parse_elements fuel' r' with
                | Parsed l r'' => Parsed (v :: l) r''
                | e => e
                end
              else if c =? 93 then Parsed [v] r'
              else SyntaxError
          | [] => SyntaxError
          end
      | SyntaxError => SyntaxError
      | OutOfFuel => OutOfFuel
      end
  end

with parse_members (fuel : nat) (s : jsstring) {struct fuel}
  : parsed (list (jsstring * JSValue)) :=
  match fuel with
  | O => OutOfFuel
  | S fuel' =>
      match skip_ws s with
      | q :: s1 =>
          if q =? 34 then
            match parse_chars s1 with
            | Parsed k s2 =>
                match skip_ws s2 with
                | colon :: s3 =>
                    if colon =? 58 then
                      match parse_value fuel' s3 with
                      | Parsed v r =>
                          match skip_ws r with
                          | c :: r' =>
                              if c =? 44 then
                                match parse_members fuel' r' with
                                | Parsed m r'' => Parsed ((k, v) :: m) r''
                                | e => e
                                end
                              else if c =? 125 then Parsed [(k, v)] r'
                              else SyntaxError
                          | [] => SyntaxError
                          end
                      | SyntaxError => SyntaxError
                      | OutOfFuel => OutOfFuel
                      end
                    else SyntaxError
                | [] => SyntaxError
                end
            | SyntaxError => SyntaxError
            | OutOfFuel => OutOfFuel
            end
          else SyntaxError
      | [] => SyntaxError
      end
  end.

Definition JSON_fuel (s : jsstring) : nat := 2 * length s + 2.

(** [JSON.parse]: [None] is the [SyntaxError] it throws. *)
Definition JSON_parse (s : jsstring) : option JSValue :=
  match parse_value (JSON_fuel s) s with
  | Parsed v r => match skip_ws r with [] => Some v | _ :: _ => None end
  | _ => None
  end.

End JSON.

(** Numbers as their tokens: an instance on which the model runs on
    concrete texts.  Two numbers are told apart when their tokens differ; a
    token is zero when its mantissa has no digit but zero (no account is
    taken of underflow), and prints as itself, which is what the engine
    prints for the tokens used here (integers and short decimals). *)
Fixpoint mantissa (t : jsstring) : jsstring :=
  match t with
  | c :: t' => if (c =? 101) || (c =? 69) then [] else c :: mantissa t'
  | [] => []
  end.

Definition token_nonzero (t : jsstring) : bool :=
  existsb (fun c => (49 <=? c) && (c <=? 57)) (mantissa t).

#[export] Instance TokenNumbers : Numeric := {
  number := jsstring;
  number_of_literal := fun t => t;
  number_truthy := token_nonzero;
  number_toString := fun t => t
}.

(** ** The values of the program *)

(** What a [throw] carries: an [Error] object with its [name] and
    [message], or any other value, with the text [String] gives for it. *)
Inductive Thrown : Type :=
| ErrorObject (name message : jsstring)
| OtherValue (text : jsstring).

Inductive completion (A : Type) : Type :=
| Normal (a : A)
| Throw (e : Thrown).
Arguments Normal {A}.
Arguments Throw {A}.

(** The [TypeError]s of the engine, with the messages of V8. *)
Definition TypeError (message : jsstring) : Thrown :=
  ErrorObject (js "TypeError") message.

Definition null_property (k : jsstring) : Thrown :=
  TypeError (js "Cannot read properties of null (reading '" ++ k ++ js "')").

Definition not_primitive : Thrown :=
  TypeError (js "Cannot convert object to primitive value").

(** A call of [@actions/core], as the workflow sees it. *)
Inductive CoreCall : Type :=
| core_info (message : jsstring)
| core_debug (message : jsstring)
| core_warning (message : jsstring)
| core_error (message : jsstring)
| core_setOutput (name value : jsstring)
| core_setFailed (message : jsstring).

Section Program.

Context {NUM : Numeric}.

(** The own property [k] of an object literal: the last member with that
    key, as [JSON.parse] defines duplicates. *)
Fixpoint lookup (k : jsstring) (m : list (jsstring * JSValue)) : option JSValue :=
  match m with
  | [] => None
  | (k', v) :: m' =>
      match lookup k m' with
      | Some w => Some w
      | None => if str_eqb k k' then Some v else None
      end
  end.

(** [v.k] for the property names this program reads ([data], [costUsd],
    [error], [message]), none of which is a property of a built-in
    prototype: [None] is [undefined]; reading a property of [null] throws. *)
Definition Get (v : JSValue) (k : jsstring) : completion (option JSValue) :=
  match v with
  | JNull => Throw (null_property k)
  | JObject m => Normal (lookup k m)
  | _ => Normal None
  end.

(** [ToBoolean]. *)
Definition truthy (v : option JSValue) : bool :=
  match v with
  | None => false
  | Some JNull => false
  | Some (JBool b) => b
  | Some (JNumber n) => number_truthy n
  | Some (JString s) => match s with [] => false | _ :: _ => true end
  | Some (JArray _) => true
  | Some (JObject _) => true
  end.

(** [v || d]. *)
Definition or_else (v : option JSValue) (d : JSValue) : JSValue :=
  match v with
  | Some x => if truthy v then x else d
  | None => d
  end.

(** [ToString] of a parsed value, as string concatenation and template
    literals apply it.  An array joins its elements with commas, [null]
    elements giving the empty text; an object gives [[object Object]],
    unless it has a member named [toString], which is not callable and
    leaves no way to a primitive. *)
Fixpoint ToString (v : JSValue) : completion jsstring :=
  match v with
  | JNull => Normal (js "null")
  | JBool true => Normal (js "true")
  | JBool false => Normal (js "false")
  | JNumber n => Normal (number_toString n)
  | JString s => Normal s
  | JArray items =>
      (fix join (l : list JSValue) : completion jsstring :=
         match l with
         | [] => Normal []
         | x :: l' =>
             match (match x with JNull => Normal [] | _ => ToString x end) with
             | Normal t =>
                 match l' with
                 | [] => Normal t
                 | _ :: _ =>
                     match join l' with
                     | Normal u => Normal (t ++ js "," ++ u)
                     | Throw e => Throw e
                     end
                 end
             | Throw e => Throw e
             end
         end) items
  | JObject m =>
      match lookup (js "toString") m with
      | Some _ => Throw not_primitive
      | None => Normal (js "[object Object]")
      end
  end.

(** ** The stream state and the effects of the decoder *)

Record StreamState : Type := {
  outputBuffer : jsstring;
  status : jsstring;
  error : JSValue;               (* [JNull] is [null] *)
  costUsd : option JSValue       (* [None] is [undefined] *)
}.

(** The state object of the stream in flight and the calls made to
    [@actions/core] so far.  The state is mutated in place: what was
    written before a throw stays written. *)
Record World : Type := {
  state : StreamState;
  calls : list CoreCall
}.

Definition M (A : Type) : Type := World -> completion A * World.

Definition ret {A} (a : A) : M A := fun w => (Normal a, w).

Definition bind {A B} (m : M A) (k : A -> M B) : M B :=
  fun w =>
    match m w with
    | (Normal a, w') => k a w'
    | (Throw e, w') => (Throw e, w')
    end.

Definition lift {A} (c : completion A) : M A := fun w => (c, w).

Definition call (c : CoreCall) : M unit :=
  fun w => (Normal tt, {| state := state w; calls := calls w ++ [c] |}).

Definition modify (f : StreamState -> StreamState) : M unit :=
  fun w => (Normal tt, {| state := f (state w); calls := calls w |}).

Definition read_state : M StreamState := fun w => (Normal (state w), w).

End Program.

Notation "x <- m ;; k" := (bind m (fun x => k))
  (at level 61, m at next level, right associativity).
Notation "m ;;; k" := (bind m (fun _ => k))
  (at level 61, right associativity).

Section Decoder.

Context {NUM : Numeric}.

Definition set_status (s : jsstring) : M unit :=
  modify (fun st => {| outputBuffer := outputBuffer st; status := s;
                       error := error st; costUsd := costUsd st |}).

Definition set_error (e : JSValue) : M unit :=
  modify (fun st => {| outputBuffer := outputBuffer st; status := status st;
                       error := e; costUsd := costUsd st |}).

Definition set_costUsd (c : JSValue) : M unit :=
  modify (fun st => {| outputBuffer := outputBuffer st; status := status st;
                       error := error st; costUsd := Some c |}).

Definition append_output (t : jsstring) : M unit :=
  modify (fun st => {| outputBuffer := outputBuffer st ++ t; status := status st;
                       error := error st; costUsd := costUsd st |}).

(** The text of a value that passed a truthiness test. *)
Definition text_of (v : option JSValue) : M jsstring :=
  match v with
  | Some x => lift (ToString x)
  | None => ret (js "undefined")
  end.

(** [processSSEEvent], lines 137-181.  The [try] covers [JSON.parse]
    alone; the [switch] runs outside it. *)
Definition processSSEEvent (eventType eventData : jsstring) : M unit :=
  match JSON_parse eventData with
  | None => call (core_debug (js "Failed to parse SSE data: " ++ eventData))
  | Some event =>
      if str_eqb eventType (js "start") then
        call (core_info (js "[Stream] Task execution started"))
      else if str_eqb eventType (js "stdout") then
        data <- lift (Get event (js "data")) ;;
        if truthy data then
          t <- text_of data ;;
          call (core_info t) ;;;
          append_output t
        else ret tt
      else if str_eqb eventType (js "stderr") then
        data <- lift (Get event (js "data")) ;;
        if truthy data then
          t <- text_of data ;;
          call (core_warning (js "[stderr] " ++ t))
        else ret tt
      else if str_eqb eventType (js "complete") then
        set_status (js "completed") ;;;
        call (core_info (js "[Stream] Task completed")) ;;;
        c <- lift (Get event (js "costUsd")) ;;
        match c with
        | Some v => set_costUsd v
        | None => ret tt
        end
      else if str_eqb eventType (js "error") then
        set_status (js "failed") ;;;
        e <- lift (Get event (js "error")) ;;
        set_error (or_else e (JString (js "Unknown error"))) ;;;
        st <- read_state ;;
        t <- lift (ToString (error st)) ;;
        call (core_error (js "[Stream] Task failed: " ++ t))
      else
        call (core_debug (js "Unknown event type: " ++ eventType))
  end.

(** The [for] loop of [parseSSELines], lines 193-201, with the pending
    event type as its loop variable. *)
Fixpoint for_lines (lines : list jsstring) (eventType : jsstring) : M unit :=
  match lines with
  | [] => ret tt
  | line :: rest =>
      if startsWith line (js "event: ") then
        for_lines rest (trim (substring line 7))
      else if startsWith line (js "data: ") then
        processSSEEvent eventType (substring line 6) ;;;
        for_lines rest []
      else
        for_lines rest eventType
  end.

(** [parseSSELines], lines 187-204.  [lines.pop() || ''] is the last
    element of the split, which is never empty. *)
Definition parseSSELines (buffer : jsstring) : M jsstring :=
  let lines := split LF buffer in
  let remainder := last lines [] in
  for_lines (removelast lines) [] ;;;
  ret remainder.

(** The state a stream starts from, lines 218-223. *)
Definition initial_state : StreamState :=
  {| outputBuffer := []; status := js "unknown"; error := JNull; costUsd := None |}.

Definition fresh : World := {| state := initial_state; calls := [] |}.

End Decoder.

(** ** The error sanitizer *)

(** [message.replace(/Bearer\s+[^\s]+/gi, 'Bearer ***')], line 129. *)

(** The letters of the pattern under the [i] flag: a code unit matches a
    lower-case ASCII letter when it is that letter or its capital. *)
Fixpoint match_ci (pattern s : jsstring) : option jsstring :=
  match pattern, s with
  | [], _ => Some s
  | p :: pattern', c :: s' =>
      if (c =? p) || (c =? p - 32) then match_ci pattern' s' else None
  | _ :: _, [] => None
  end.

(** A greedy run of code units of one class.  The classes [\s] and
    [[^\s]] are complementary, so giving back part of the run never
    lets the rest of the pattern match: no backtracking is needed. *)
Fixpoint star (p : char -> bool) (s : jsstring) : jsstring :=
  match s with
  | c :: s' => if p c then star p s' else s
  | [] => []
  end.

Definition plus (p : char -> bool) (s : jsstring) : option jsstring :=
  match s with
  | c :: s' => if p c then Some (star p s') else None
  | [] => None
  end.

Definition not_ws (c : char) : bool := negb (is_ws c).

(** A match of the pattern at the start of [s]: what follows it. *)
Definition match_bearer (s : jsstring) : option jsstring :=
  match match_ci (js "bearer") s with
  | Some s1 =>
      match plus is_ws s1 with
      | Some s2 => plus not_ws s2
      | None => None
      end
  | None => None
  end.

Definition inspect {A} (a : A) : {b : A | a = b} := exist _ a eq_refl.

(** The global replacement: matches are taken from left to right and the
    search resumes after each match. *)
Equations? sanitize (s : jsstring) : jsstring by wf (length s) lt :=
  sanitize [] := [];
  sanitize (c :: s') with inspect (match_bearer (c :: s')) => {
    | exist _ (Some r) _ := js "Bearer ***" ++ sanitize r;
    | exist _ None _ := c :: sanitize s' }.
Proof.
  (* a match consumes at least the letters of the pattern *)
  assert (Hstar : forall p x, (length (star p x) <= length x)%nat).
  { intros p x. induction x as [|a x IH]; simpl; [lia|].
    destruct (p a); simpl; lia. }
  assert (Hplus : forall p x y, plus p x = Some y -> (length y < length x)%nat).
  { intros p [|a x] y; simpl; [discriminate|].
    destruct (p a); [|discriminate].
    intros [= <-]. specialize (Hstar p x). lia. }
  assert (Hci : forall pattern x y,
             match_ci pattern x = Some y -> (length y <= length x)%nat).
  { induction pattern as [|p pattern IH]; intros x y; simpl.
    - intros [= <-]. lia.
    - destruct x as [|a x]; [discriminate|].
      destruct ((a =? p) || (a =? p - 32)); [|discriminate].
      intros E. apply IH in E. simpl. lia. }
  match goal with E : match_bearer _ = Some _ |- _ => unfold match_bearer in E end.
  destruct (match_ci (js "bearer") (c :: s')) as [s1|] eqn:E1; [|discriminate].
  destruct (plus is_ws s1) as [s2|] eqn:E2; [|discriminate].
  apply Hci in E1. apply Hplus in E2.
  match goal with E : plus not_ws s2 = Some _ |- _ => apply Hplus in E end.
  simpl in *. lia.
Qed.

(** ** The stream orchestrator *)

(** What one [await reader.read()] gives: a chunk, already decoded to
    text by the streaming [TextDecoder]; the end of the stream; or a
    rejection.  A failure to obtain the reader is a rejection of the
    first read: both are thrown inside the same [try]. *)
Inductive ReadResult : Type :=
| read_chunk (value : jsstring)
| read_done
| read_rejects (e : Thrown).

Section Orchestrator.

Context {NUM : Numeric}.

(** The response of [fetch], by what the program asks of it. *)
Record Response : Type := {
  ok : bool;
  response_status : number;
  response_text : completion jsstring;     (* [await response.text()] *)
  content_type : option jsstring;          (* [headers.get('content-type')] *)
  response_json : completion JSValue;      (* [await response.json()] *)
  reads : list ReadResult                  (* the reads in order; then [done] *)
}.

Record StreamResult : Type := {
  result_status : jsstring;
  result_output : option jsstring;
  result_costUsd : option JSValue;
  result_error : JSValue
}.

Definition terminal (s : jsstring) : bool :=
  str_eqb s (js "completed") || str_eqb s (js "failed").

(** The [while (true)] loop, lines 254-264. *)
Fixpoint read_loop (rs : list ReadResult) (buffer : jsstring) : M unit :=
  match rs with
  | [] => ret tt
  | read_done :: _ => ret tt
  | read_rejects e :: _ => lift (Throw e)
  | read_chunk value :: rs' =>
      buffer' <- parseSSELines (buffer ++ value) ;;
      st <- read_state ;;
      if terminal (status st) then ret tt else read_loop rs' buffer'
  end.

Definition is_object (v : option JSValue) : bool :=
  match v with
  | Some (JObject _) | Some (JArray _) | Some JNull => true
  | _ => false
  end.

(** The JSON answer given in place of a stream, lines 240-248: [Some]
    is the early [return]. *)
Definition degraded (response : Response) : M (option StreamResult) :=
  let contentType := match content_type response with Some t => t | None => [] end in
  if includes contentType (js "application/json") then
    jsonResponse <- lift (response_json response) ;;
    e <- lift (Get jsonResponse (js "error")) ;;
    if truthy e then
      errorMsg <- (if is_object e
                   then match e with
                        | Some o => lift (Get o (js "message"))
                        | None => ret None
                        end
                   else ret e) ;;
      ret (Some {| result_status := js "failed"; result_output := None;
                   result_costUsd := None;
                   result_error := or_else errorMsg (JString (js "Unknown error")) |})
    else ret None
  else ret None.

(** The body of the [try], lines 226-273. *)
Definition attempt (fetch : completion Response) : M StreamResult :=
  response <- lift fetch ;;
  if negb (ok response) then
    errorText <- lift (response_text response) ;;
    lift (Throw (ErrorObject (js "Error")
                   (js "SSE connection failed ("
                    ++ number_toString (response_status response)
                    ++ js "): " ++ errorText)))
  else
    early <- degraded response ;;
    match early with
    | Some r => ret r
    | None =>
        read_loop (reads response) [] ;;;
        st <- read_state ;;
        ret {| result_status := status st;
               result_output := match outputBuffer st with
                                | [] => None
                                | _ :: _ => Some (outputBuffer st)
                                end;
               result_costUsd := costUsd st;
               result_error := error st |}
    end.

(** [err instanceof Error && err.name === 'AbortError']. *)
Definition is_abort (e : Thrown) : bool :=
  match e with
  | ErrorObject name _ => str_eqb name (js "AbortError")
  | OtherValue _ => false
  end.

Definition timeout_message (timeoutMs : number) : jsstring :=
  js "Task execution exceeded timeout (" ++ number_toString timeoutMs ++ js "ms)".

(** [streamTaskOutput], lines 210-285.  The timer armed on entry acts
    through the abort of the connection, which the pending [fetch] or
    [read] reports as a rejection; [fetch] is that outcome.  The state
    object is created by the call. *)
Definition streamTaskOutput (fetch : completion Response) (timeoutMs : number)
  : M StreamResult :=
  fun w =>
    match attempt fetch {| state := initial_state; calls := calls w |} with
    | (Normal r, w') => (Normal r, w')
    | (Throw err, w') =>
        if is_abort err then
          (Normal {| result_status := js "timeout"; result_output := None;
                     result_costUsd := None;
                     result_error := JString (timeout_message timeoutMs) |}, w')
        else (Throw err, w')
    end.

(** ** The action *)

(** [error instanceof Error ? error.message : String(error)]. *)
Definition message_of (e : Thrown) : jsstring :=
  match e with
  | ErrorObject _ message => message
  | OtherValue text => text
  end.

(** [v.toString()] on a value that is not [undefined]. *)
Definition toString_method (v : JSValue) : completion jsstring :=
  match v with
  | JNull => Throw (null_property (js "toString"))
  | JObject m =>
      match lookup (js "toString") m with
      | Some _ => Throw (TypeError (js "streamResult.costUsd.toString is not a function"))
      | None => Normal (js "[object Object]")
      end
  | _ => ToString v
  end.

(** Lines 107-126, after the submission. *)
Definition report (fetch : completion Response) (timeoutMs duration : number) : M unit :=
  streamResult <- streamTaskOutput fetch timeoutMs ;;
  call (core_setOutput (js "result") (result_status streamResult)) ;;;
  call (core_setOutput (js "duration-ms") (number_toString duration)) ;;;
  match result_output streamResult with
  | Some o => call (core_setOutput (js "output") o)
  | None => ret tt
  end ;;;
  match result_costUsd streamResult with
  | Some c => t <- lift (toString_method c) ;; call (core_setOutput (js "cost-usd") t)
  | None => ret tt
  end ;;;
  if str_eqb (result_status streamResult) (js "failed") then
    t <- lift (ToString (or_else (Some (result_error streamResult))
                                 (JString (js "Unknown error")))) ;;
    call (core_setFailed (js "Task execution failed: " ++ t))
  else
    call (core_info (js "Task completed successfully in "
                     ++ number_toString duration ++ js "ms")).

(** [run], lines 48-132.  Reading the inputs and submitting the task
    (lines 50-106) belong to the collaborators of the decoder: [submitted]
    is how they end, by a throw or with the timeout in milliseconds for the
    stream, and [before] are the calls they made.  [duration] is the
    difference of the two clock readings. *)
Definition run (before : list CoreCall) (submitted : completion number)
    (fetch : completion Response) (duration : number) : list CoreCall :=
  let body := timeoutMs <- lift submitted ;; report fetch timeoutMs duration in
  match body {| state := initial_state; calls := before |} with
  | (Normal _, w) => calls w
  | (Throw e, w) => calls w ++ [core_setFailed (sanitize (message_of e))]
  end.

End Orchestrator.

(** ** The contracts in the words of the specification *)

Section Contracts.

Context {NUM : Numeric}.

(** The text of complete lines, each closed by its newline. *)
Definition unlines (lines : list jsstring) : jsstring :=
  concat (List.map (fun l => l ++ [LF]) lines).

(** The event decoder of section 4.2: the pairs of event type and raw
    payload that a sequence of lines gives, from a pending event type. *)
Fixpoint decode (lines : list jsstring) (pending : jsstring)
  : list (jsstring * jsstring) :=
  match lines with
  | [] => []
  | line :: rest =>
      if startsWith line (js "event: ") then
        decode rest (trim (skipn 7 line))
      else if startsWith line (js "data: ") then
        (pending, skipn 6 line) :: decode rest []
      else decode rest pending
  end.

(** The pending event type left by a sequence of lines. *)
Fixpoint pending_after (lines : list jsstring) (pending : jsstring) : jsstring :=
  match lines with
  | [] => pending
  | line :: rest =>
      if startsWith line (js "event: ") then
        pending_after rest (trim (skipn 7 line))
      else if startsWith line (js "data: ") then
        pending_after rest []
      else pending_after rest pending
  end.

(** The decoded events handed to the state machine one after the other. *)
Fixpoint dispatch_all (events : list (jsstring * jsstring)) : M unit :=
  match events with
  | [] => ret tt
  | (eventType, rawData) :: rest =>
      processSSEEvent eventType rawData ;;; dispatch_all rest
  end.

(** Successive arrivals parsed one call at a time, each carry-over put
    before the next arrival, as the read loop does without its test. *)
Fixpoint feed (chunks : list jsstring) (buffer : jsstring) : M jsstring :=
  match chunks with
  | [] => ret buffer
  | value :: rest =>
      buffer' <- parseSSELines (buffer ++ value) ;;
      feed rest buffer'
  end.

(** The pattern occurs somewhere in the text. *)
Fixpoint has_bearer (s : jsstring) : bool :=
  match match_bearer s with
  | Some _ => true
  | None => match s with
            | [] => false
            | _ :: s' => has_bearer s'
            end
  end.

End Contracts.

(** ** Notions used by the properties *)

(** The replacement text of the sanitizer. *)
Definition REPLACEMENT : jsstring := js "Bearer ***".

(** What is left after a match starts with white space or is empty. *)
Definition at_boundary (s : jsstring) : Prop :=
  match s with
  | [] => True
  | c :: _ => is_ws c = true
  end.

(** The pattern after its first letter: the letters [p], then white
    space, then a token. *)
Definition match_rest (p s : jsstring) : bool :=
  match match_ci p s with
  | Some s1 =>
      match plus is_ws s1 with
      | Some s2 => match plus not_ws s2 with Some _ => true | None => false end
      | None => false
      end
  | None => false
  end.

(** The pattern once some white space has been read: more white
    space, then a token. *)
Definition match_tail (s : jsstring) : bool :=
  match plus not_ws (star is_ws s) with Some _ => true | None => false end.

(** The first letter of the pattern, in either case. *)
Definition is_b (c : char) : bool := (c =? 98) || (c =? 66).

(** Letters of a pattern that the first letter of the replacement does
    not match. *)
Fixpoint no_b (p : jsstring) : Prop :=
  match p with
  | [] => True
  | x :: p' => x <> 98 /\ x <> 66 /\ no_b p'
  end.

(** A code unit that the letter [p] of the pattern matches. *)
Definition ci_letter (c p : char) : Prop := c = p \/ c = p - 32.

(** The status written by a terminal event of type [et]. *)
Definition completed_or_failed (et : jsstring) (s : jsstring) : Prop :=
  (et = js "complete" /\ s = js "completed") \/ (et = js "error" /\ s = js "failed").

(** The five event types of the protocol. *)
Definition known_type (et : jsstring) : bool :=
  str_eqb et (js "start") || str_eqb et (js "stdout") || str_eqb et (js "stderr")
  || str_eqb et (js "complete") || str_eqb et (js "error").

(** A failed status comes with an error text. *)
Definition failed_has_error `{Numeric} (st : StreamState) : Prop :=
  status st = js "failed" -> error st <> JNull.

(** The pending event type is empty at every boundary between the
    arrivals, the carry-over before them being [buffer]. *)
Fixpoint boundaries_clear (chunks : list jsstring) (buffer : jsstring) : Prop :=
  match chunks with
  | [] => True
  | value :: rest =>
      pending_after (removelast (split LF (buffer ++ value))) [] = []
      /\ boundaries_clear rest (last (split LF (buffer ++ value)) [])
  end.

(** *** Concrete inputs *)

(** A response that opens an event stream and delivers the given reads. *)
Definition sse_response `{Numeric} (rs : list ReadResult) : Response :=
  {| ok := true;
     response_status := number_of_literal (js "200");
     response_text := Normal [];
     content_type := Some (js "text/event-stream");
     response_json := Throw (ErrorObject (js "SyntaxError") (js "Unexpected token"));
     reads := rs |}.

(** The world after a [complete] event with an empty payload. *)
Definition after_complete : World :=
  snd (processSSEEvent (js "complete") (js "{}") fresh).

(** What the runtime throws when the connection is aborted. *)
Definition abort_error : Thrown :=
  ErrorObject (js "AbortError") (js "The operation was aborted").

(** A fault of the HTTP client that echoes the authorization header. *)
Definition leaking_fault : Thrown :=
  ErrorObject (js "Error") (js "Request failed with Bearer secret-key-12345 in header").

(** A stream cut inside an [event: ] line and after a [data: ] line. *)
Definition three_arrivals : list jsstring :=
  [js "event: std";
   ln "out" ++ ln "data: {'data':'hello'}";
   ln "event: complete" ++ ln "data: {}"].

(** ** The answer to the submission *)

(** The decimal text of a natural number: what a template literal prints
    for the status code of an HTTP answer. *)
Fixpoint uint_digits (u : Decimal.uint) : jsstring :=
  match u with
  | Decimal.Nil => []
  | Decimal.D0 u' => 48 :: uint_digits u'
  | Decimal.D1 u' => 49 :: uint_digits u'
  | Decimal.D2 u' => 50 :: uint_digits u'
  | Decimal.D3 u' => 51 :: uint_digits u'
  | Decimal.D4 u' => 52 :: uint_digits u'
  | Decimal.D5 u' => 53 :: uint_digits u'
  | Decimal.D6 u' => 54 :: uint_digits u'
  | Decimal.D7 u' => 55 :: uint_digits u'
  | Decimal.D8 u' => 56 :: uint_digits u'
  | Decimal.D9 u' => 57 :: uint_digits u'
  end.

Definition decimal (n : N) : jsstring := uint_digits (N.to_uint n).

Section Submission.

Context {NUM : Numeric}.

Definition missing_task_id : Thrown :=
  ErrorObject (js "Error") (js "Invalid response from API: missing task_id").

(** Lines 86-98 of [run]: what the program makes of the answer to the
    submission, given its status code and its parsed body ([JNull] when
    there is none).  [Normal] is the task identifier the program goes on
    with. *)
Definition check_submission (statusCode : N) (result : JSValue)
  : completion JSValue :=
  if (statusCode <? 200) || (300 <=? statusCode) then
    let errorBody := or_else (Some result) (JObject []) in
    match Get errorBody (js "error") with
    | Normal e =>
        match ToString (or_else e (JString (js "Unknown error"))) with
        | Normal t =>
            Throw (ErrorObject (js "Error")
                     (js "Task submission failed (" ++ decimal statusCode
                      ++ js "): " ++ t))
        | Throw x => Throw x
        end
    | Throw x => Throw x
    end
  else
    (* [taskData?.task_id] *)
    match (match result with
           | JNull => Normal None
           | _ => Get result (js "task_id")
           end) with
    | Normal (Some taskId) =>
        if truthy (Some taskId) then Normal taskId else Throw missing_task_id
    | Normal None => Throw missing_task_id
    | Throw x => Throw x
    end.

(** How the submission ends for [run]: by the throw of the check, by the
    throw of the template of line 99 on an identifier that has no text, or
    with the timeout for the stream. *)
Definition submitted_with (statusCode : N) (result : JSValue) (timeoutMs : number)
  : completion number :=
  match check_submission statusCode result with
  | Normal taskId =>
      match ToString taskId with
      | Normal _ => Normal timeoutMs
      | Throw e => Throw e
      end
  | Throw e => Throw e
  end.

End Submission.

(** ** Notions used by the further properties *)

(** The calls that write to the log of the workflow. *)
Definition is_log (c : CoreCall) : bool :=
  match c with
  | core_info _ | core_debug _ | core_warning _ | core_error _ => true
  | core_setOutput _ _ | core_setFailed _ => false
  end.

Definition is_setFailed (c : CoreCall) : bool :=
  match c with
  | core_setFailed _ => true
  | _ => false
  end.

(** The statuses the state of a stream takes. *)
Definition known_status (s : jsstring) : bool :=
  str_eqb s (js "unknown") || str_eqb s (js "completed") || str_eqb s (js "failed").

(** The state holds a known status, and nothing else while the status is
    the initial one. *)
Definition settled `{Numeric} (st : StreamState) : Prop :=
  known_status (status st) = true
  /\ (status st = js "unknown" -> error st = JNull /\ costUsd st = None).

Definition nonempty (t : jsstring) : bool :=
  match t with
  | [] => false
  | _ :: _ => true
  end.

(** A payload on one line that parses to an object with the text [t] as
    its [data]. *)
Definition stdout_payload `{Numeric} (d t : jsstring) : Prop :=
  ~ In LF d
  /\ exists event,
       JSON_parse d = Some event
       /\ Get event (js "data") = Normal (Some (JString t)).

(** The lines of a run of [stdout] events with the given payloads, each
    event closed by a blank line. *)
Definition stdout_lines (payloads : list jsstring) : list jsstring :=
  flat_map (fun d => [js "event: stdout"; js "data: " ++ d; []]) payloads.

(** The lines of a [complete] event with the given payload. *)
Definition complete_lines (d : jsstring) : list jsstring :=
  [js "event: complete"; js "data: " ++ d; []].

(** A member that is a text, or absent. *)
Definition text_or_absent `{Numeric} (v : option JSValue) : Prop :=
  match v with
  | None => True
  | Some (JString _) => True
  | Some _ => False
  end.

(** A payload that, if it is JSON at all, is as the interface
    [SSEEventData] declares it: an object whose [data] and [error], when
    present, are texts. *)
Definition conforms `{Numeric} (d : jsstring) : Prop :=
  forall event,
    JSON_parse d = Some event ->
    exists m, event = JObject m
              /\ text_or_absent (lookup (js "data") m)
              /\ text_or_absent (lookup (js "error") m).

(** A line the decoder acts on: an [event: ] line or a [data: ] line. *)
Definition recognized (line : jsstring) : bool :=
  startsWith line (js "event: ") || startsWith line (js "data: ").

(** No call follows a call of [setFailed]. *)
Fixpoint failure_comes_last (l : list CoreCall) : bool :=
  match l with
  | [] => true
  | c :: l' =>
      if is_setFailed c then match l' with [] => true | _ :: _ => false end
      else failure_comes_last l'
  end.

(** The second world extends the first: the output by a suffix, the calls
    by log calls. *)
Definition extends `{Numeric} (w w' : World) : Prop :=
  (exists t, outputBuffer (state w') = outputBuffer (state w) ++ t)
  /\ (exists added, calls w' = calls w ++ added /\ forallb is_log added = true).

(** An event stream that ends inside a [data: ] line. *)
Definition cut_stream : list ReadResult :=
  [read_chunk (ln "event: stdout" ++ ln "data: {'data':'kept'}");
   read_chunk (ln "event: complete" ++ js "data: {}")].

(** A response whose status is in the range 200-299, by what the program
    asks of it then. *)
Definition accepted `{Numeric} (type : option jsstring) (body : completion JSValue)
    (rs : list ReadResult) : Response :=
  {| ok := true;
     response_status := number_of_literal (js "200");
     response_text := Normal [];
     content_type := type;
     response_json := body;
     reads := rs |}.

(** * Properties *)

(** ** Strings *)

Lemma str_eqb_eq a b : str_eqb a b = true <-> a = b.
Proof.
  revert b; induction a as [|x a IH]; intros [|y b]; simpl; split;
    try congruence; try discriminate.
  - rewrite andb_true_iff, N.eqb_eq, IH. intros [-> ->]. reflexivity.
  - intros [= -> ->]. rewrite N.eqb_refl. simpl. apply IH. reflexivity.
Qed.

Lemma str_eqb_refl a : str_eqb a a = true.
Proof. apply str_eqb_eq. reflexivity. Qed.

Lemma str_eqb_neq a b : str_eqb a b = false <-> a <> b.
Proof.
  rewrite <- str_eqb_eq. destruct (str_eqb a b); split; congruence.
Qed.

Lemma split_nonempty sep s : split sep s <> [].
Proof.
  destruct s as [|c s]; simpl; [discriminate|].
  destruct (c =? sep); [discriminate|].
  destruct (split sep s); discriminate.
Qed.

Lemma unlines_cons l lines : unlines (l :: lines) = l ++ LF :: unlines lines.
Proof. unfold unlines. simpl. rewrite <- app_assoc. reflexivity. Qed.

Lemma unlines_app a b : unlines (a ++ b) = unlines a ++ unlines b.
Proof. unfold unlines. rewrite map_app, concat_app. reflexivity. Qed.

(** A buffer is its complete lines followed by its last fragment, and
    neither holds a newline. *)
Lemma split_frames s :
  s = unlines (removelast (split LF s)) ++ last (split LF s) []
  /\ Forall (fun l => ~ In LF l) (split LF s).
Proof.
  induction s as [|c s [IHs IHf]].
  - simpl. split; [reflexivity|]. constructor; [intros []|constructor].
  - simpl. destruct (c =? LF) eqn:E.
    + apply N.eqb_eq in E. subst c.
      pose proof (split_nonempty LF s) as Hne.
      destruct (split LF s) as [|l ls] eqn:Es; [congruence|].
      split.
      * change (removelast ([] :: l :: ls)) with ([] :: removelast (l :: ls)).
        change (last ([] :: l :: ls) []) with (last (l :: ls) (@nil char)).
        rewrite unlines_cons. simpl. f_equal. exact IHs.
      * constructor; [intros []|exact IHf].
    + apply N.eqb_neq in E.
      destruct (split LF s) as [|l ls] eqn:Es.
      * exfalso. apply (split_nonempty LF s). exact Es.
      * pose proof (Forall_inv IHf) as Hl.
        pose proof (Forall_inv_tail IHf) as Hls.
        split.
        -- destruct ls as [|l' ls'].
           ++ simpl in *. f_equal. exact IHs.
           ++ change (removelast ((c :: l) :: l' :: ls'))
                with ((c :: l) :: removelast (l' :: ls')).
              change (last ((c :: l) :: l' :: ls') [])
                with (last (l' :: ls') (@nil char)).
              change (removelast (l :: l' :: ls'))
                with (l :: removelast (l' :: ls')) in IHs.
              change (last (l :: l' :: ls') [])
                with (last (l' :: ls') (@nil char)) in IHs.
              rewrite unlines_cons in *. simpl. f_equal. exact IHs.
        -- constructor; [|exact Hls].
           intros [H|H]; [congruence|]. exact (Hl H).
Qed.

Lemma split_no_newline r : ~ In LF r -> split LF r = [r].
Proof.
  induction r as [|c r IH]; intros H; simpl; [reflexivity|].
  destruct (c =? LF) eqn:E.
  - apply N.eqb_eq in E. exfalso. apply H. left. exact E.
  - rewrite IH; [reflexivity|]. intros H'. apply H. right. exact H'.
Qed.

Lemma split_line l rest :
  ~ In LF l -> split LF (l ++ LF :: rest) = l :: split LF rest.
Proof.
  induction l as [|c l IH]; intros H; simpl.
  - reflexivity.
  - destruct (c =? LF) eqn:E.
    + apply N.eqb_eq in E. exfalso. apply H. left. exact E.
    + rewrite IH; [reflexivity|]. intros H'. apply H. right. exact H'.
Qed.

(** Splitting undoes framing. *)
Lemma split_unlines lines r :
  Forall (fun l => ~ In LF l) lines -> ~ In LF r ->
  split LF (unlines lines ++ r) = lines ++ [r].
Proof.
  intros Hl Hr. induction Hl as [|l lines H _ IH].
  - simpl. apply split_no_newline. exact Hr.
  - rewrite unlines_cons. rewrite <- app_assoc. simpl.
    rewrite split_line by exact H. rewrite IH. reflexivity.
Qed.

Lemma removelast_snoc {A} (l : list A) x : removelast (l ++ [x]) = l.
Proof. apply removelast_last. Qed.

Lemma last_snoc {A} (l : list A) x d : last (l ++ [x]) d = x.
Proof. apply last_last. Qed.

(** ** The monad *)

Section MonadLaws.

Context {NUM : Numeric}.

Lemma bind_ret_tt (m : M unit) w : (m ;;; ret tt) w = m w.
Proof.
  unfold bind, ret. destruct (m w) as [[[]|e] w']; reflexivity.
Qed.

Lemma bind_assoc {A B C} (m : M A) (k : A -> M B) (h : B -> M C) w :
  bind (bind m k) h w = bind m (fun a => bind (k a) h) w.
Proof.
  unfold bind. destruct (m w) as [[a|e] w']; reflexivity.
Qed.

Lemma bind_ext {A B} (m : M A) (k k' : A -> M B) w :
  (forall a w', k a w' = k' a w') -> bind m k w = bind m k' w.
Proof.
  intros H. unfold bind. destruct (m w) as [[a|e] w']; [apply H|reflexivity].
Qed.

End MonadLaws.

(** ** The line framer and the event decoder *)

Lemma no_newline_check (l : jsstring) :
  forallb (fun c => negb (c =? LF)) l = true -> ~ In LF l.
Proof.
  intros H Hin. rewrite forallb_forall in H. specialize (H _ Hin).
  rewrite N.eqb_refl in H. discriminate.
Qed.

Lemma data_line_is_no_event_line (line : jsstring) :
  startsWith line (js "data: ") = true -> startsWith line (js "event: ") = false.
Proof.
  destruct line as [|c line]; [discriminate|].
  cbn [startsWith js List.map String.list_ascii_of_string].
  intros H. apply andb_true_iff in H as [H _]. apply N.eqb_eq in H. subst c.
  reflexivity.
Qed.

Section Framing.

Context {NUM : Numeric}.

(** The loop of the source makes exactly the calls of the decoder, in
    order, and stops at the first one that throws. *)
Lemma for_lines_decode lines pending w :
  for_lines lines pending w = dispatch_all (decode lines pending) w.
Proof.
  revert pending w. induction lines as [|line rest IH]; intros pending w.
  - reflexivity.
  - cbn [for_lines decode].
    destruct (startsWith line (js "event: ")); [apply IH|].
    destruct (startsWith line (js "data: ")); [|apply IH].
    cbn [dispatch_all]. apply bind_ext. intros _ w'. apply IH.
Qed.

Lemma decode_app a b pending :
  decode (a ++ b) pending = decode a pending ++ decode b (pending_after a pending).
Proof.
  revert pending. induction a as [|line a IH]; intros pending; simpl.
  - reflexivity.
  - destruct (startsWith line (js "event: ")); [apply IH|].
    destruct (startsWith line (js "data: ")); [|apply IH].
    simpl. f_equal. apply IH.
Qed.

Lemma dispatch_all_app a b w :
  dispatch_all (a ++ b) w = (dispatch_all a ;;; dispatch_all b) w.
Proof.
  revert w. induction a as [|[t d] a IH]; intros w.
  - reflexivity.
  - cbn [app dispatch_all]. rewrite bind_assoc. apply bind_ext.
    intros _ w'. apply IH.
Qed.

Lemma decode_skips pre rest pending :
  Forall (fun l => startsWith l (js "event: ") = false
                   /\ startsWith l (js "data: ") = false) pre ->
  decode (pre ++ rest) pending = decode rest pending.
Proof.
  induction 1 as [|l pre [He Hd] _ IH]; simpl; [reflexivity|].
  rewrite He, Hd. exact IH.
Qed.

Lemma parseSSELines_frames lines remainder w :
  Forall (fun l => ~ In LF l) lines -> ~ In LF remainder ->
  parseSSELines (unlines lines ++ remainder) w
  = (dispatch_all (decode lines []) ;;; ret remainder) w.
Proof.
  intros Hl Hr. unfold parseSSELines.
  rewrite split_unlines by assumption. rewrite removelast_snoc, last_snoc.
  unfold bind. rewrite for_lines_decode. reflexivity.
Qed.

End Framing.

(** X21.  What [parseSSELines] returns.  Every buffer is, in exactly one
    way, a sequence of lines without newline, each followed by its newline,
    and then a last fragment without newline.  Whenever the call returns,
    and whatever it dispatched, the value returned is that last fragment;
    a buffer with no newline (the empty one too) is returned whole, at once,
    with nothing dispatched and nothing changed. *)
Theorem parseSSELines_returns_the_carry_over `{Numeric} (buffer : jsstring) :
  let lines := removelast (split LF buffer) in
  let remainder := last (split LF buffer) [] in
  buffer = unlines lines ++ remainder
  /\ Forall (fun l => ~ In LF l) lines
  /\ ~ In LF remainder
  /\ (forall ls r,
        buffer = unlines ls ++ r -> Forall (fun l => ~ In LF l) ls -> ~ In LF r ->
        ls = lines /\ r = remainder)
  /\ (forall w r w', parseSSELines buffer w = (Normal r, w') -> r = remainder)
  /\ (~ In LF buffer -> forall w, parseSSELines buffer w = (Normal buffer, w)).
Proof.
  intros lines remainder.
  destruct (split_frames buffer) as [Heq Hall].
  fold lines remainder in Heq.
  assert (Hsplit : split LF buffer = lines ++ [remainder]).
  { unfold lines, remainder. apply app_removelast_last. apply split_nonempty. }
  rewrite Hsplit in Hall. apply Forall_app in Hall as [Hlines Hrem].
  apply Forall_inv in Hrem.
  split; [exact Heq|]. split; [exact Hlines|]. split; [exact Hrem|].
  split; [|split].
  - intros ls r Hb Hls Hr. unfold lines, remainder.
    rewrite Hb, (split_unlines ls r Hls Hr), removelast_snoc, last_snoc.
    split; reflexivity.
  - intros w r w'. unfold parseSSELines. fold lines remainder. unfold bind, ret.
    destruct (for_lines lines [] w) as [[[]|e] w1]; [|discriminate].
    intros [= <- _]. reflexivity.
  - intros Hb w. unfold parseSSELines.
    rewrite split_no_newline by assumption. reflexivity.
Qed.

Lemma parseSSELines_returns_the_carry_over_witness :
  parseSSELines (js "partial") fresh = (Normal (js "partial"), fresh)
  /\ (removelast (split LF (ln "event: start" ++ ln "data: {}" ++ js "event: std"))
      = [js "event: start"; js "data: {}"]
      /\ last (split LF (ln "event: start" ++ ln "data: {}" ++ js "event: std")) []
         = js "event: std").
Proof.
  split.
  - apply (parseSSELines_returns_the_carry_over (js "partial")).
    apply no_newline_check. reflexivity.
  - assert (Hls : Forall (fun l => ~ In LF l) [js "event: start"; js "data: {}"]).
    { repeat constructor; apply no_newline_check; reflexivity. }
    assert (Hr : ~ In LF (js "event: std")).
    { apply no_newline_check. reflexivity. }
    destruct (proj1 (proj2 (proj2 (proj2 (parseSSELines_returns_the_carry_over
                (ln "event: start" ++ ln "data: {}" ++ js "event: std")))))
                [js "event: start"; js "data: {}"] (js "event: std")
                eq_refl Hls Hr) as [H1 H2].
    split; symmetry; assumption.
Defined.

(** C7 fails on the code.  A dispatched event that throws ends the call
    of [parseSSELines] at once.  The payload [null] is such an event (C5):
    on a buffer that holds it the call throws, so no carry-over is returned,
    and the [data: ] line after it is never dispatched; the same buffer
    without that event returns its carry-over after dispatching the later
    line. *)
Theorem C7_throwing_event_ends_the_call :
  parseSSELines (ln "event: stdout" ++ ln "data: null"
                 ++ ln "event: stdout" ++ ln "data: {'data':'lost'}"
                 ++ js "event: comp") fresh
  = (Throw (null_property (js "data")), fresh)
  /\ parseSSELines (ln "event: stdout" ++ ln "data: {'data':'lost'}"
                    ++ js "event: comp") fresh
     = (Normal (js "event: comp"),
        {| state := {| outputBuffer := js "lost"; status := js "unknown";
                       error := JNull; costUsd := None |};
           calls := [core_info (js "lost")] |})
  /\ streamTaskOutput
       (Normal (sse_response
          [read_chunk (ln "event: stdout" ++ ln "data: null"
                       ++ ln "event: stdout" ++ ln "data: {'data':'lost'}"
                       ++ js "event: comp");
           read_chunk (ln "lete" ++ ln "data: {}")]))
       (number_of_literal (js "1000")) fresh
     = (Throw (null_property (js "data")), fresh).
Proof. repeat split; reflexivity. Qed.

(** C10.  A call of [parseSSELines] starts with no pending event type,
    whatever the call before it read: when the carry-over of the previous
    call followed by the new text frames into lines of which the first
    [data: ] line [d] has no [event: ] line before it, [d] is dispatched
    with the empty event type, also when the previous call ended on an
    [event: ] line. *)
Theorem C10_pending_type_starts_empty `{Numeric}
    (prev chunk : jsstring) (pre : list jsstring) (d : jsstring)
    (post : list jsstring) (rem : jsstring) :
  last (split LF prev) [] ++ chunk = unlines (pre ++ d :: post) ++ rem ->
  Forall (fun l => ~ In LF l) (pre ++ d :: post) ->
  ~ In LF rem ->
  Forall (fun l => startsWith l (js "event: ") = false
                   /\ startsWith l (js "data: ") = false) pre ->
  startsWith d (js "data: ") = true ->
  forall w,
    (carry <- parseSSELines prev ;; parseSSELines (carry ++ chunk)) w
    = (parseSSELines prev ;;;
       processSSEEvent [] (substring d 6) ;;;
       dispatch_all (decode post []) ;;;
       ret rem) w.
Proof.
  intros Hframe Hlines Hrem Hpre Hd w.
  unfold parseSSELines at 1 3. rewrite !bind_assoc. apply bind_ext.
  intros _ w1. unfold bind at 1 3, ret at 1 3.
  rewrite Hframe. rewrite parseSSELines_frames by assumption.
  rewrite decode_skips by assumption. cbn [decode].
  rewrite (data_line_is_no_event_line _ Hd), Hd.
  cbn [dispatch_all]. rewrite bind_assoc. reflexivity.
Qed.

Lemma C10_pending_type_starts_empty_witness :
  Forall (fun l => ~ In LF l) [jq "data: {'data':'hello'}"]
  /\ (carry <- parseSSELines (ln "event: stdout") ;;
      parseSSELines (carry ++ ln "data: {'data':'hello'}")) fresh
     = (parseSSELines (ln "event: stdout") ;;;
        processSSEEvent [] (substring (jq "data: {'data':'hello'}") 6) ;;;
        dispatch_all (decode [] []) ;;;
        ret []) fresh.
Proof.
  assert (Hl : Forall (fun l => ~ In LF l) [jq "data: {'data':'hello'}"]).
  { constructor; [apply no_newline_check; reflexivity|constructor]. }
  split; [exact Hl|].
  apply (C10_pending_type_starts_empty (ln "event: stdout")
           (ln "data: {'data':'hello'}") [] (jq "data: {'data':'hello'}") [] []).
  - reflexivity.
  - exact Hl.
  - intros [].
  - constructor.
  - reflexivity.
Defined.

(** ** The stream state machine *)

(** Proof automation for the state machine: unfold the monad, then
    split on every test of the program. *)
Ltac unfold_M :=
  cbv beta iota delta [bind ret lift call modify read_state set_status set_error
    set_costUsd append_output text_of] in *.

Ltac split_cases :=
  repeat (cbn [fst snd state calls status error costUsd outputBuffer] in *;
          match goal with
          | |- context [match ?x with _ => _ end] =>
              lazymatch x with
              | context [match _ with _ => _ end] => fail
              | _ => destruct x eqn:?
              end
          end).

Ltac is_type :=
  match goal with
  | H : str_eqb ?et _ = true |- _ => apply str_eqb_eq in H; try subst et
  end.

Section StateMachine.

Context {NUM : Numeric}.

(** The status after an event, however the call ends: unchanged, or
    written by a [complete] or an [error] event. *)
Lemma processSSEEvent_status et d w :
  let s' := status (state (snd (processSSEEvent et d w))) in
  s' = status (state w) \/ completed_or_failed et s'.
Proof.
  unfold processSSEEvent. unfold_M. split_cases.
  all: try (left; reflexivity).
  all: right; is_type; cbv; tauto.
Qed.

(** Only a [complete] event writes [costUsd], however the call ends. *)
Lemma processSSEEvent_costUsd et d w :
  et <> js "complete" ->
  costUsd (state (snd (processSSEEvent et d w))) = costUsd (state w).
Proof.
  intros Hne. unfold processSSEEvent. unfold_M. split_cases.
  all: try reflexivity.
  all: is_type; congruence.
Qed.

Lemma or_else_not_null v d : d <> JNull -> or_else v d <> JNull.
Proof.
  intros Hd. unfold or_else. destruct v as [x|]; [|exact Hd].
  destruct (truthy (Some x)) eqn:E; [|exact Hd].
  intros ->. discriminate.
Qed.

Lemma processSSEEvent_complete d w event c :
  JSON_parse d = Some event ->
  Get event (js "costUsd") = Normal c ->
  processSSEEvent (js "complete") d w
  = (Normal tt,
     {| state := {| outputBuffer := outputBuffer (state w);
                    status := js "completed";
                    error := error (state w);
                    costUsd := match c with
                               | Some v => Some v
                               | None => costUsd (state w)
                               end |};
        calls := calls w ++ [core_info (js "[Stream] Task completed")] |}).
Proof.
  intros Hp Hg. unfold processSSEEvent. rewrite Hp.
  change (str_eqb (js "complete") (js "start")) with false.
  change (str_eqb (js "complete") (js "stdout")) with false.
  change (str_eqb (js "complete") (js "stderr")) with false.
  change (str_eqb (js "complete") (js "complete")) with true.
  unfold_M. rewrite Hg. destruct c; reflexivity.
Qed.

Lemma processSSEEvent_error d w event e t :
  JSON_parse d = Some event ->
  Get event (js "error") = Normal e ->
  ToString (or_else e (JString (js "Unknown error"))) = Normal t ->
  processSSEEvent (js "error") d w
  = (Normal tt,
     {| state := {| outputBuffer := outputBuffer (state w);
                    status := js "failed";
                    error := or_else e (JString (js "Unknown error"));
                    costUsd := costUsd (state w) |};
        calls := calls w ++ [core_error (js "[Stream] Task failed: " ++ t)] |}).
Proof.
  intros Hp Hg Ht. unfold processSSEEvent. rewrite Hp.
  change (str_eqb (js "error") (js "start")) with false.
  change (str_eqb (js "error") (js "stdout")) with false.
  change (str_eqb (js "error") (js "stderr")) with false.
  change (str_eqb (js "error") (js "complete")) with false.
  change (str_eqb (js "error") (js "error")) with true.
  unfold_M. rewrite Hg. cbn [state error]. rewrite Ht. reflexivity.
Qed.

(** What an [error] event leaves when it returns. *)
Lemma processSSEEvent_error_returns d w w' :
  processSSEEvent (js "error") d w = (Normal tt, w') ->
  (JSON_parse d = None /\ state w' = state w)
  \/ (exists event e,
        JSON_parse d = Some event
        /\ Get event (js "error") = Normal e
        /\ status (state w') = js "failed"
        /\ error (state w') = or_else e (JString (js "Unknown error"))).
Proof.
  unfold processSSEEvent.
  destruct (JSON_parse d) as [event|] eqn:Hp.
  - change (str_eqb (js "error") (js "start")) with false.
    change (str_eqb (js "error") (js "stdout")) with false.
    change (str_eqb (js "error") (js "stderr")) with false.
    change (str_eqb (js "error") (js "complete")) with false.
    change (str_eqb (js "error") (js "error")) with true.
    unfold_M. destruct (Get event (js "error")) as [e|x] eqn:Hg; [|discriminate].
    cbn [state error].
    destruct (ToString (or_else e (JString (js "Unknown error")))); [|discriminate].
    intros [= <-]. right. exists event, e. repeat split; try reflexivity; assumption.
  - unfold_M. intros [= <-]. left. split; reflexivity.
Qed.

(** A payload that is not JSON: one diagnostic, the state as it was. *)
Lemma processSSEEvent_invalid_json et d w :
  JSON_parse d = None ->
  processSSEEvent et d w
  = (Normal tt,
     {| state := state w;
        calls := calls w ++ [core_debug (js "Failed to parse SSE data: " ++ d)] |}).
Proof.
  intros Hp. unfold processSSEEvent. rewrite Hp. reflexivity.
Qed.

(** An event type outside the five of the protocol: one diagnostic, the
    state as it was, whatever the payload. *)
Lemma processSSEEvent_unknown_type et d w :
  known_type et = false ->
  exists message,
    processSSEEvent et d w
    = (Normal tt, {| state := state w; calls := calls w ++ [core_debug message] |}).
Proof.
  unfold known_type. rewrite !orb_false_iff. intros [[[[H1 H2] H3] H4] H5].
  unfold processSSEEvent. rewrite H1, H2, H3, H4, H5.
  destruct (JSON_parse d); eexists; reflexivity.
Qed.

Lemma processSSEEvent_failed_has_error et d w w' :
  processSSEEvent et d w = (Normal tt, w') ->
  failed_has_error (state w) -> failed_has_error (state w').
Proof.
  unfold failed_has_error. intros Hrun Hinv. revert Hrun.
  unfold processSSEEvent. unfold_M. split_cases.
  all: try discriminate.
  all: intros [= <-]; cbn [state status error]; try exact Hinv.
  all: first [ intros Hc; discriminate Hc
             | intros _; apply or_else_not_null; discriminate ].
Qed.

End StateMachine.

(** ** The state across a buffer and across the read loop *)

Section Loops.

Context {NUM : Numeric}.

Lemma processSSEEvent_terminal et d w :
  terminal (status (state w)) = true ->
  terminal (status (state (snd (processSSEEvent et d w)))) = true.
Proof.
  intros Ht. destruct (processSSEEvent_status et d w) as [E|[[_ E]|[_ E]]];
    rewrite E; [exact Ht|reflexivity|reflexivity].
Qed.

Lemma dispatch_all_terminal events w :
  terminal (status (state w)) = true ->
  terminal (status (state (snd (dispatch_all events w)))) = true.
Proof.
  revert w. induction events as [|[et d] events IH]; intros w Ht.
  - exact Ht.
  - cbn [dispatch_all]. unfold bind.
    pose proof (processSSEEvent_terminal et d w Ht) as H1.
    destruct (processSSEEvent et d w) as [[[]|e] w1]; cbn [snd] in *.
    + apply IH. exact H1.
    + exact H1.
Qed.

Lemma dispatch_all_failed_has_error events w w' :
  dispatch_all events w = (Normal tt, w') ->
  failed_has_error (state w) -> failed_has_error (state w').
Proof.
  revert w. induction events as [|[et d] events IH]; intros w.
  - intros [= <-] H. exact H.
  - cbn [dispatch_all]. unfold bind.
    destruct (processSSEEvent et d w) as [[[]|e] w1] eqn:E; [|discriminate].
    intros Hrest Hinv. apply (IH w1 Hrest).
    apply (processSSEEvent_failed_has_error et d w w1 E Hinv).
Qed.

Lemma parseSSELines_failed_has_error buffer w carry w' :
  parseSSELines buffer w = (Normal carry, w') ->
  failed_has_error (state w) -> failed_has_error (state w').
Proof.
  unfold parseSSELines, bind. rewrite for_lines_decode.
  destruct (dispatch_all _ w) as [[[]|e] w1] eqn:E; [|discriminate].
  unfold ret. intros [= _ <-]. apply (dispatch_all_failed_has_error _ _ _ E).
Qed.

Lemma read_loop_failed_has_error rs buffer w w' :
  read_loop rs buffer w = (Normal tt, w') ->
  failed_has_error (state w) -> failed_has_error (state w').
Proof.
  revert buffer w. induction rs as [|r rs IH]; intros buffer w.
  - intros [= <-] H. exact H.
  - destruct r as [value| |e]; cbn [read_loop].
    + unfold bind, read_state.
      destruct (parseSSELines (buffer ++ value) w) as [[carry|e] w1] eqn:E;
        [|discriminate].
      pose proof (parseSSELines_failed_has_error _ _ _ _ E) as Hstep.
      destruct (terminal (status (state w1))).
      * unfold ret. intros [= <-]. exact Hstep.
      * intros Hrest Hinv. apply (IH _ _ Hrest). apply Hstep. exact Hinv.
    + intros [= <-] H. exact H.
    + discriminate.
Qed.

(** The loop reads no further once a call of [parseSSELines] has
    returned with a terminal status. *)
Lemma read_loop_stops value rest buffer w0 carry w :
  parseSSELines (buffer ++ value) w0 = (Normal carry, w) ->
  terminal (status (state w)) = true ->
  read_loop (read_chunk value :: rest) buffer w0 = (Normal tt, w).
Proof.
  intros Hp Ht. cbn [read_loop]. unfold bind, read_state. rewrite Hp, Ht.
  reflexivity.
Qed.

Lemma streamTaskOutput_failed_has_error fetch timeoutMs w r w' :
  streamTaskOutput fetch timeoutMs w = (Normal r, w') ->
  result_status r = js "failed" -> result_error r <> JNull.
Proof.
  unfold streamTaskOutput.
  destruct (attempt fetch _) as [[r0|e] w1] eqn:E.
  - intros [= <- <-]. revert E. unfold attempt, degraded. unfold_M.
    destruct fetch as [response|e]; [|discriminate].
    destruct (negb (ok response)).
    { destruct (response_text response); discriminate. }
    destruct (includes _ _).
    + destruct (response_json response) as [j|e]; [|discriminate].
      destruct (Get j (js "error")) as [e|x]; [|discriminate].
      destruct (truthy e) eqn:Et.
      * destruct (is_object e).
        -- destruct e as [o|].
           ++ destruct (Get o (js "message")) as [m|x]; [|discriminate].
              intros [= <-] _. cbn [result_error].
              apply or_else_not_null. discriminate.
           ++ intros [= <-] _. cbn [result_error]. discriminate.
        -- intros [= <-] _. cbn [result_error].
           apply or_else_not_null. discriminate.
      * destruct (read_loop (reads response) [] _) as [[[]|e'] w2] eqn:El;
          [|discriminate].
        intros [= <-]. cbn [result_status result_error].
        apply (read_loop_failed_has_error _ _ _ _ El). intros Hc. discriminate Hc.
    + destruct (read_loop (reads response) [] _) as [[[]|e'] w2] eqn:El;
        [|discriminate].
      intros [= <-]. cbn [result_status result_error].
      apply (read_loop_failed_has_error _ _ _ _ El). intros Hc. discriminate Hc.
  - destruct (is_abort e); [|discriminate].
    intros [= <- _]. cbn [result_status]. intros Hc. discriminate Hc.
Qed.

End Loops.

(** ** The claims on the state machine *)

(** X6.  What the code keeps of the monotonicity of the status.  Once a
    call of [parseSSELines] has returned with status [completed] or [failed]
    the read loop ends, so no event of a later chunk is folded into the
    state.  Inside one buffer, from a terminal status, every event leaves the
    status terminal, and an event that is neither [complete] nor [error]
    leaves it as it is. *)
Theorem terminal_status_ends_the_stream `{Numeric} (w : World) :
  terminal (status (state w)) = true ->
  (forall et d, terminal (status (state (snd (processSSEEvent et d w)))) = true)
  /\ (forall et d, et <> js "complete" -> et <> js "error" ->
        status (state (snd (processSSEEvent et d w))) = status (state w))
  /\ (forall events, terminal (status (state (snd (dispatch_all events w)))) = true)
  /\ (forall w0 buffer value carry rest,
        parseSSELines (buffer ++ value) w0 = (Normal carry, w) ->
        read_loop (read_chunk value :: rest) buffer w0 = (Normal tt, w)).
Proof.
  intros Ht. repeat split.
  - intros et d. apply processSSEEvent_terminal. exact Ht.
  - intros et d Hc He.
    destruct (processSSEEvent_status et d w) as [E|[[E _]|[E _]]];
      [exact E|contradiction|contradiction].
  - intros events. apply dispatch_all_terminal. exact Ht.
  - intros w0 buffer value carry rest Hp.
    apply (read_loop_stops value rest buffer w0 carry w Hp Ht).
Qed.

Lemma terminal_status_ends_the_stream_witness :
  terminal (status (state after_complete)) = true
  /\ terminal (status (state (snd (processSSEEvent (js "stdout") (jq "{'data':'x'}")
                                     after_complete)))) = true.
Proof.
  split.
  - reflexivity.
  - apply (proj1 (terminal_status_ends_the_stream after_complete eq_refl)).
Defined.

(** C3 fails on the code.  The read loop tests the status only after
    a whole buffer has been parsed, and [parseSSELines] dispatches every
    [data: ] line of the buffer: a [complete] event followed by an [error]
    event in the same chunk leaves the status [failed], the status
    [completed] being overwritten, while the same text in two chunks stops
    the loop after the first and gives [completed]. *)
Theorem C3_terminal_status_overwritten_within_a_buffer :
  status (state after_complete) = js "completed"
  /\ status (state (snd (processSSEEvent (js "error") (js "{}") after_complete)))
     = js "failed"
  /\ fst (streamTaskOutput
            (Normal (sse_response
               [read_chunk (ln "event: complete" ++ ln "data: {}"
                            ++ ln "event: error" ++ ln "data: {}")]))
            (number_of_literal (js "1000")) fresh)
     = Normal {| result_status := js "failed"; result_output := None;
                 result_costUsd := None;
                 result_error := JString (js "Unknown error") |}
  /\ fst (streamTaskOutput
            (Normal (sse_response
               [read_chunk (ln "event: complete" ++ ln "data: {}");
                read_chunk (ln "event: error" ++ ln "data: {}")]))
            (number_of_literal (js "1000")) fresh)
     = Normal {| result_status := js "completed"; result_output := None;
                 result_costUsd := None; result_error := JNull |}.
Proof. repeat split; reflexivity. Qed.

(** C4 fails on the code.  [parseSSELines] dispatches every [data: ]
    line of a buffer, and the read loop tests the status only after the
    call: of two [complete] events in one chunk both are folded, so the cost
    is written twice and the second value is the one kept, and the status is
    set to [completed] twice, the completion being logged twice.  The same
    text in two chunks stops the loop after the first event and keeps the
    first value. *)
Theorem C4_cost_overwritten_within_a_buffer :
  parseSSELines (ln "event: complete" ++ ln "data: {'costUsd':1}") fresh
  = (Normal [],
     {| state := {| outputBuffer := []; status := js "completed"; error := JNull;
                    costUsd := Some (JNumber (number_of_literal (js "1"))) |};
        calls := [core_info (js "[Stream] Task completed")] |})
  /\ streamTaskOutput
       (Normal (sse_response
          [read_chunk (ln "event: complete" ++ ln "data: {'costUsd':1}"
                       ++ ln "event: complete" ++ ln "data: {'costUsd':2}")]))
       (number_of_literal (js "1000")) fresh
     = (Normal {| result_status := js "completed"; result_output := None;
                  result_costUsd := Some (JNumber (number_of_literal (js "2")));
                  result_error := JNull |},
        {| state := {| outputBuffer := []; status := js "completed"; error := JNull;
                       costUsd := Some (JNumber (number_of_literal (js "2"))) |};
           calls := [core_info (js "[Stream] Task completed");
                     core_info (js "[Stream] Task completed")] |})
  /\ streamTaskOutput
       (Normal (sse_response
          [read_chunk (ln "event: complete" ++ ln "data: {'costUsd':1}");
           read_chunk (ln "event: complete" ++ ln "data: {'costUsd':2}")]))
       (number_of_literal (js "1000")) fresh
     = (Normal {| result_status := js "completed"; result_output := None;
                  result_costUsd := Some (JNumber (number_of_literal (js "1")));
                  result_error := JNull |},
        {| state := {| outputBuffer := []; status := js "completed"; error := JNull;
                       costUsd := Some (JNumber (number_of_literal (js "1"))) |};
           calls := [core_info (js "[Stream] Task completed")] |}).
Proof. repeat split; reflexivity. Qed.

(** C5 fails on the code.  The [try] of [processSSEEvent] covers
    [JSON.parse] alone: the payload [null] is valid JSON, and the [switch]
    then reads a property of [null], which throws a [TypeError].  For an
    [error] event the status is already written when it throws.  The throw
    leaves [parseSSELines] and [streamTaskOutput] as a fault. *)
Theorem C5_null_payload_throws :
  JSON_parse (js "null") = Some JNull
  /\ processSSEEvent (js "stdout") (js "null") fresh
     = (Throw (null_property (js "data")), fresh)
  /\ processSSEEvent (js "error") (js "null") fresh
     = (Throw (null_property (js "error")),
        {| state := {| outputBuffer := []; status := js "failed"; error := JNull;
                       costUsd := None |};
           calls := [] |})
  /\ fst (streamTaskOutput
            (Normal (sse_response
               [read_chunk (ln "event: stdout" ++ ln "data: null" ++ ln "")]))
            (number_of_literal (js "1000")) fresh)
     = Throw (null_property (js "data")).
Proof. repeat split; reflexivity. Qed.

(** C6, as the code has it.  An [error] event that returns leaves the
    status [failed] and an error that is not [null]: the [error] member of
    the payload when that member is truthy, and the text [Unknown error]
    when it is absent or falsy (the empty text, zero, [false], [null]).
    Every result that [streamTaskOutput] returns with status [failed], from
    the stream or from the JSON answer given in its place, has an error that
    is not [null]. *)
Theorem C6_failed_status_has_error `{Numeric} :
  (forall d w w',
     processSSEEvent (js "error") d w = (Normal tt, w') ->
     (JSON_parse d = None /\ state w' = state w)
     \/ (exists event e,
           JSON_parse d = Some event
           /\ Get event (js "error") = Normal e
           /\ status (state w') = js "failed"
           /\ error (state w') <> JNull
           /\ (forall v, e = Some v -> truthy e = true -> error (state w') = v)
           /\ (truthy e = false -> error (state w') = JString (js "Unknown error"))))
  /\ (forall fetch timeoutMs w r w',
        streamTaskOutput fetch timeoutMs w = (Normal r, w') ->
        result_status r = js "failed" -> result_error r <> JNull).
Proof.
  split.
  - intros d w w' Hrun.
    destruct (processSSEEvent_error_returns d w w' Hrun)
      as [Hl|(event & e & Hp & Hg & Hs & He)]; [left; exact Hl|].
    right. exists event, e. repeat split; try assumption.
    + rewrite He. apply or_else_not_null. discriminate.
    + intros v -> Hv. rewrite He. unfold or_else. rewrite Hv. reflexivity.
    + intros Hv. rewrite He. unfold or_else. rewrite Hv.
      destruct e; reflexivity.
  - intros fetch timeoutMs w r w'. apply streamTaskOutput_failed_has_error.
Qed.

Lemma C6_failed_status_has_error_witness :
  fst (streamTaskOutput
         (Normal (sse_response
            [read_chunk (ln "event: error" ++ ln "data: {'error':'task crashed'}")]))
         (number_of_literal (js "1000")) fresh)
  = Normal {| result_status := js "failed"; result_output := None;
              result_costUsd := None;
              result_error := JString (js "task crashed") |}
  /\ JString (js "task crashed") <> JNull.
Proof.
  split.
  - reflexivity.
  - apply (proj2 C6_failed_status_has_error
             (Normal (sse_response
                [read_chunk (ln "event: error" ++ ln "data: {'error':'task crashed'}")]))
             (number_of_literal (js "1000")) fresh
             {| result_status := js "failed"; result_output := None;
                result_costUsd := None;
                result_error := JString (js "task crashed") |}
             (snd (streamTaskOutput
                (Normal (sse_response
                   [read_chunk (ln "event: error"
                                ++ ln "data: {'error':'task crashed'}")]))
                (number_of_literal (js "1000")) fresh))).
    + reflexivity.
    + reflexivity.
Defined.

(** C6 as stated fails: the payload has an [error] member, the empty
    text, and the event stores [Unknown error] instead of it. *)
Lemma C6_counterexample :
  JSON_parse (jq "{'error':''}") = Some (JObject [(js "error", JString [])])
  /\ Get (JObject [(js "error", JString [])]) (js "error") = Normal (Some (JString []))
  /\ error (state (snd (processSSEEvent (js "error") (jq "{'error':''}") fresh)))
     = JString (js "Unknown error").
Proof. repeat split; reflexivity. Qed.

(** C1 fails on the code.  The pending event type is a local variable
    of [parseSSELines] and is lost when the call returns, while the event
    it belongs to may arrive with the next chunk: the same text gives
    [hello] as output when it is parsed in one call and nothing when the
    boundary falls after the [event: ] line, where the payload is dispatched
    with the empty event type. *)
Theorem C1_event_type_lost_at_chunk_boundary :
  parseSSELines (ln "event: stdout" ++ ln "data: {'data':'hello'}") fresh
  = (Normal [],
     {| state := {| outputBuffer := js "hello"; status := js "unknown";
                    error := JNull; costUsd := None |};
        calls := [core_info (js "hello")] |})
  /\ feed [ln "event: stdout"; ln "data: {'data':'hello'}"] [] fresh
     = (Normal [],
        {| state := initial_state;
           calls := [core_debug (js "Unknown event type: ")] |})
  /\ fst (streamTaskOutput
            (Normal (sse_response
               [read_chunk (ln "event: stdout" ++ ln "data: {'data':'hello'}")]))
            (number_of_literal (js "1000")) fresh)
     = Normal {| result_status := js "unknown"; result_output := Some (js "hello");
                 result_costUsd := None; result_error := JNull |}
  /\ fst (streamTaskOutput
            (Normal (sse_response
               [read_chunk (ln "event: stdout");
                read_chunk (ln "data: {'data':'hello'}")]))
            (number_of_literal (js "1000")) fresh)
     = Normal {| result_status := js "unknown"; result_output := None;
                 result_costUsd := None; result_error := JNull |}.
Proof. repeat split; reflexivity. Qed.

(** ** The error sanitizer *)

Lemma star_length p s : (length (star p s) <= length s)%nat.
Proof.
  induction s as [|c s IH]; simpl; [lia|].
  destruct (p c); simpl; lia.
Qed.

Lemma plus_length p s r : plus p s = Some r -> (length r < length s)%nat.
Proof.
  destruct s as [|c s]; simpl; [discriminate|].
  destruct (p c); [|discriminate].
  intros [= <-]. pose proof (star_length p s). lia.
Qed.

Lemma match_ci_length pattern s r :
  match_ci pattern s = Some r -> (length r <= length s)%nat.
Proof.
  revert s; induction pattern as [|p pattern IH]; intros s; simpl.
  - intros [= <-]. lia.
  - destruct s as [|c s]; [discriminate|].
    destruct ((c =? p) || (c =? p - 32)); [|discriminate].
    intros H. apply IH in H. simpl. lia.
Qed.

Lemma match_bearer_length s r :
  match_bearer s = Some r -> (length r < length s)%nat.
Proof.
  unfold match_bearer.
  destruct (match_ci (js "bearer") s) as [s1|] eqn:E1; [|discriminate].
  destruct (plus is_ws s1) as [s2|] eqn:E2; [|discriminate].
  intros E3.
  apply match_ci_length in E1. apply plus_length in E2. apply plus_length in E3.
  lia.
Qed.

Lemma sanitize_match c s r :
  match_bearer (c :: s) = Some r -> sanitize (c :: s) = REPLACEMENT ++ sanitize r.
Proof.
  intros H. funelim (sanitize (c :: s)).
  - assert (r = r0) by congruence. subst. reflexivity.
  - congruence.
Qed.

Lemma sanitize_no_match c s :
  match_bearer (c :: s) = None -> sanitize (c :: s) = c :: sanitize s.
Proof.
  intros H. funelim (sanitize (c :: s)).
  - congruence.
  - reflexivity.
Qed.

Lemma sanitize_nil : sanitize [] = [].
Proof. reflexivity. Qed.

(** Strong induction on the length of the text, the order in which the
    replacement consumes it. *)
Lemma jsstring_length_ind (P : jsstring -> Prop) :
  (forall s, (forall t, (length t < length s)%nat -> P t) -> P s) ->
  forall s, P s.
Proof.
  intros Hstep s.
  assert (H : forall n t, (length t < n)%nat -> P t).
  { induction n as [|n IH]; intros t Ht; [lia|].
    apply Hstep. intros u Hu. apply IH. lia. }
  apply (H (S (length s))). lia.
Qed.

Lemma star_not_ws_boundary s : at_boundary (star not_ws s).
Proof.
  induction s as [|c s IH]; simpl; [exact I|].
  unfold not_ws at 1. destruct (is_ws c) eqn:E; simpl; [exact E|exact IH].
Qed.

Lemma match_bearer_boundary s r : match_bearer s = Some r -> at_boundary r.
Proof.
  unfold match_bearer.
  destruct (match_ci (js "bearer") s) as [s1|]; [|discriminate].
  destruct (plus is_ws s1) as [s2|]; [|discriminate].
  destruct s2 as [|c s2]; simpl; [discriminate|].
  destruct (not_ws c); [|discriminate].
  intros [= <-]. apply star_not_ws_boundary.
Qed.

(** The letter [b] is no white space, so no match starts on white space. *)
Lemma match_bearer_ws c s : is_ws c = true -> match_bearer (c :: s) = None.
Proof.
  intros Hc. unfold match_bearer.
  cbn [match_ci js List.map String.list_ascii_of_string].
  destruct ((c =? N_of_ascii "b") || (c =? N_of_ascii "b" - 32)) eqn:E;
    [|reflexivity].
  apply orb_true_iff in E as [E|E]; apply N.eqb_eq in E; subst c; discriminate.
Qed.

Lemma sanitize_boundary s : at_boundary s -> at_boundary (sanitize s).
Proof.
  destruct s as [|c s]; simpl; intros H; [exact I|].
  rewrite sanitize_no_match by (apply match_bearer_ws; exact H). exact H.
Qed.

(** The replacement text followed by a boundary is a match of the
    pattern, and all of the match. *)
Lemma match_bearer_replacement s :
  at_boundary s -> match_bearer (REPLACEMENT ++ s) = Some s.
Proof.
  intros H. unfold match_bearer. cbn.
  destruct s as [|c s]; [reflexivity|].
  simpl in H. cbn [star]. unfold not_ws. rewrite H. reflexivity.
Qed.

Lemma match_bearer_cons c s :
  match match_bearer (c :: s) with Some _ => true | None => false end
  = is_b c && match_rest (js "earer") s.
Proof.
  unfold match_bearer, match_rest, is_b.
  change (js "bearer") with (98 :: js "earer").
  cbn [match_ci]. change (98 - 32) with 66.
  destruct ((c =? 98) || (c =? 66)); [|reflexivity].
  destruct (match_ci (js "earer") s) as [s1|]; [|reflexivity].
  destruct (plus is_ws s1) as [s2|]; [|reflexivity].
  destruct (plus not_ws s2); reflexivity.
Qed.

Lemma match_bearer_is_b c s r : match_bearer (c :: s) = Some r -> is_b c = true.
Proof.
  intros H. pose proof (match_bearer_cons c s) as E. rewrite H in E.
  symmetry in E. apply andb_true_iff in E. apply E.
Qed.

Lemma is_b_not_ws c : is_b c = true -> is_ws c = false.
Proof.
  unfold is_b. intros H. apply orb_true_iff in H as [H|H];
    apply N.eqb_eq in H; subst c; reflexivity.
Qed.

Lemma sanitize_head_of_match c s r :
  match_bearer (c :: s) = Some r -> exists x, sanitize (c :: s) = 66 :: x.
Proof.
  intros H. rewrite (sanitize_match _ _ _ H). eexists. reflexivity.
Qed.

Lemma match_tail_sanitize s :
  match_tail (sanitize s) = true -> match_tail s = true.
Proof.
  induction s as [|d s IH]; [intros H; exact H|].
  destruct (match_bearer (d :: s)) as [r|] eqn:E.
  - intros _. apply match_bearer_is_b in E. apply is_b_not_ws in E.
    unfold match_tail. cbn [star]. rewrite E. cbn [plus]. unfold not_ws.
    rewrite E. reflexivity.
  - rewrite (sanitize_no_match _ _ E). unfold match_tail. cbn [star].
    destruct (is_ws d) eqn:Ed.
    + exact IH.
    + cbn [plus]. unfold not_ws. rewrite Ed. intros _. reflexivity.
Qed.

Lemma match_rest_sanitize p s :
  no_b p -> match_rest p (sanitize s) = true -> match_rest p s = true.
Proof.
  revert p. induction s as [|d s IH]; intros p Hp; [intros H; exact H|].
  destruct (match_bearer (d :: s)) as [r|] eqn:E.
  - destruct (sanitize_head_of_match _ _ _ E) as [x ->].
    destruct p as [|y p]; unfold match_rest.
    + cbn. discriminate.
    + cbn [match_ci]. destruct Hp as (H1 & H2 & _).
      destruct ((66 =? y) || (66 =? y - 32)) eqn:Ey; [|discriminate].
      exfalso. apply orb_true_iff in Ey as [Ey|Ey]; apply N.eqb_eq in Ey.
      * apply H2. symmetry. exact Ey.
      * apply H1. lia.
  - rewrite (sanitize_no_match _ _ E).
    destruct p as [|y p]; unfold match_rest.
    + cbn [match_ci plus]. destruct (is_ws d); [|discriminate].
      apply match_tail_sanitize.
    + cbn [match_ci]. destruct ((d =? y) || (d =? y - 32)); [|discriminate].
      destruct Hp as (_ & _ & Hp). apply (IH p Hp).
Qed.

Lemma no_match_sanitize c s :
  match_bearer (c :: s) = None -> match_bearer (c :: sanitize s) = None.
Proof.
  intros H.
  pose proof (match_bearer_cons c s) as E. rewrite H in E.
  pose proof (match_bearer_cons c (sanitize s)) as E'.
  destruct (match_bearer (c :: sanitize s)); [|reflexivity].
  exfalso. symmetry in E, E'.
  apply andb_true_iff in E' as [Hb Hr].
  apply match_rest_sanitize in Hr.
  - rewrite Hb, Hr in E. discriminate.
  - cbn. repeat split; discriminate.
Qed.

Lemma sanitize_replacement s :
  at_boundary s -> sanitize (REPLACEMENT ++ s) = REPLACEMENT ++ sanitize s.
Proof.
  intros Hb. pose proof (match_bearer_replacement _ Hb) as Hm.
  exact (sanitize_match 66 (js "earer ***" ++ s) s Hm).
Qed.

Lemma sanitize_idempotent s : sanitize (sanitize s) = sanitize s.
Proof.
  induction s as [s IH] using jsstring_length_ind.
  destruct s as [|c s]; [reflexivity|].
  destruct (match_bearer (c :: s)) as [r|] eqn:E.
  - rewrite (sanitize_match _ _ _ E).
    pose proof (match_bearer_boundary _ _ E) as Hb.
    apply sanitize_boundary in Hb.
    rewrite (sanitize_replacement _ Hb). rewrite IH; [reflexivity|].
    apply match_bearer_length. exact E.
  - rewrite (sanitize_no_match _ _ E).
    rewrite (sanitize_no_match _ _ (no_match_sanitize _ _ E)).
    rewrite IH; [reflexivity|]. simpl. lia.
Qed.

Lemma has_bearer_cons c s :
  has_bearer (c :: s) = false -> match_bearer (c :: s) = None /\ has_bearer s = false.
Proof.
  cbn [has_bearer]. destruct (match_bearer (c :: s)); [discriminate|].
  intros H. split; [reflexivity|exact H].
Qed.

Lemma sanitize_unchanged s : has_bearer s = false -> sanitize s = s.
Proof.
  induction s as [|c s IH]; intros H; [reflexivity|].
  apply has_bearer_cons in H as [Hm Hs].
  rewrite (sanitize_no_match _ _ Hm), (IH Hs). reflexivity.
Qed.

Lemma inside_replacement u l y :
  REPLACEMENT = u ++ l -> u <> [] -> l <> [] -> match_bearer (l ++ y) = None.
Proof.
  intros H Hu Hl.
  change REPLACEMENT with [66; 101; 97; 114; 101; 114; 32; 42; 42; 42] in H.
  destruct u as [|u1 u]; [contradiction|].
  simpl in H. injection H; clear H; intros H _.
  do 9 (destruct u as [|? u];
        [ simpl in H; subst l; reflexivity
        | simpl in H; injection H; clear H; intros H _ ]).
  destruct u; destruct l; try discriminate. contradiction.
Qed.

(** In a text that the replacement leaves as it is, the pattern occurs
    only as the replacement text itself. *)
Lemma sanitize_fixed_clean x :
  sanitize x = x ->
  forall u t r, x = u ++ t -> match_bearer t = Some r -> t = REPLACEMENT ++ r.
Proof.
  induction x as [x IH] using jsstring_length_ind.
  intros Hfix u t r Hx Hm.
  destruct x as [|c x].
  { destruct u; [|discriminate]. simpl in Hx. subst t. discriminate. }
  destruct (match_bearer (c :: x)) as [r0|] eqn:E.
  - pose proof (match_bearer_length _ _ E) as Hlen.
    rewrite (sanitize_match _ _ _ E) in Hfix.
    pose proof (match_bearer_boundary _ _ E) as Hb.
    apply sanitize_boundary in Hb.
    pose proof (match_bearer_replacement _ Hb) as Hm0.
    rewrite Hfix, E in Hm0. injection Hm0 as Hr0.
    rewrite <- Hr0 in Hfix.
    rewrite <- Hfix in Hx.
    destruct (app_eq_app _ _ _ _ Hx) as [l [[Hu Ht]|[Hu Ht]]].
    + destruct l as [|l1 l].
      * simpl in Ht. subst t.
        apply (IH r0 Hlen (eq_sym Hr0) [] r0 r eq_refl Hm).
      * destruct u as [|u1 u].
        -- simpl in Hu. rewrite <- Hu in Ht. subst t.
           rewrite Hfix, E in Hm. injection Hm as <-. reflexivity.
        -- subst t.
           rewrite (inside_replacement (u1 :: u) (l1 :: l) r0) in Hm.
           ++ discriminate.
           ++ exact Hu.
           ++ discriminate.
           ++ discriminate.
    + apply (IH r0 Hlen (eq_sym Hr0) l t r Ht Hm).
  - rewrite (sanitize_no_match _ _ E) in Hfix. injection Hfix as Hfix.
    destruct u as [|u1 u].
    + simpl in Hx. subst t. congruence.
    + injection Hx as _ Hx. apply (IH x (Nat.lt_succ_diag_r _) Hfix u t r Hx Hm).
Qed.

Lemma sanitize_clean s u t r :
  sanitize s = u ++ t -> match_bearer t = Some r -> t = REPLACEMENT ++ r.
Proof.
  apply (sanitize_fixed_clean (sanitize s) (sanitize_idempotent s)).
Qed.

(** C9.  The sanitizer scans the text from left to right: where the
    pattern matches ([Bearer] in any case, white space, a token of
    non-white-space code units taken as long as it goes) the match is
    replaced by [Bearer ***] and the scan resumes after it; elsewhere the
    code unit is kept.  After it, the pattern occurs in the text only as the
    replacement itself.  It is idempotent, and a text in which the pattern
    does not occur is returned as it is. *)
Theorem C9_sanitizer :
  sanitize (js "Request failed with Bearer abc123 in header")
  = js "Request failed with Bearer *** in header"
  /\ (forall c s r, match_bearer (c :: s) = Some r ->
        sanitize (c :: s) = js "Bearer ***" ++ sanitize r)
  /\ (forall c s, match_bearer (c :: s) = None ->
        sanitize (c :: s) = c :: sanitize s)
  /\ (forall s u t r, sanitize s = u ++ t -> match_bearer t = Some r ->
        t = js "Bearer ***" ++ r)
  /\ (forall s, sanitize (sanitize s) = sanitize s)
  /\ (forall s, has_bearer s = false -> sanitize s = s).
Proof.
  split; [reflexivity|].
  split; [exact sanitize_match|].
  split; [exact sanitize_no_match|].
  split; [exact sanitize_clean|].
  split; [exact sanitize_idempotent|exact sanitize_unchanged].
Qed.

Lemma C9_sanitizer_witness :
  has_bearer (js "Invalid response from API: missing task_id") = false
  /\ sanitize (js "Invalid response from API: missing task_id")
     = js "Invalid response from API: missing task_id".
Proof.
  split.
  - reflexivity.
  - apply (proj2 (proj2 (proj2 (proj2 (proj2 C9_sanitizer))))). reflexivity.
Defined.

(** ** The orchestrator and the action *)

Lemma startsWith_app b c : startsWith (b ++ c) b = true.
Proof.
  induction b as [|x b IH]; simpl; [destruct c; reflexivity|].
  rewrite N.eqb_refl. exact IH.
Qed.






(** C2 fails on the code.  A thrown fault reaches [setFailed] through
    the replacement of line 129, but the failure message of a stream that
    ended with status [failed] is built on line 123 from the error text of
    the stream and passed to [setFailed] as it is: a bearer credential in
    that text is surfaced. *)
Theorem C2_failed_status_message_is_not_sanitized :
  run [] (Normal (number_of_literal (js "1800000")))
    (Normal (sse_response
       [read_chunk (ln "event: error"
                    ++ ln "data: {'error':'denied for Bearer secret-key-12345'}")]))
    (number_of_literal (js "42"))
  = [core_error (js "[Stream] Task failed: denied for Bearer secret-key-12345");
     core_setOutput (js "result") (js "failed");
     core_setOutput (js "duration-ms") (js "42");
     core_setFailed (js "Task execution failed: denied for Bearer secret-key-12345")]
  /\ match_bearer (js "Bearer secret-key-12345") = Some []
  /\ sanitize (js "Task execution failed: denied for Bearer secret-key-12345")
     = js "Task execution failed: denied for Bearer ***"
  /\ run [] (Throw (ErrorObject (js "Error")
                      (js "Request failed with Bearer secret-key-12345 in header")))
       (Throw abort_error) (number_of_literal (js "42"))
     = [core_setFailed (js "Request failed with Bearer *** in header")].
Proof. repeat split; reflexivity. Qed.

(** ** [JSON.parse] never runs out of fuel *)

Lemma skip_ws_length s : (length (skip_ws s) <= length s)%nat.
Proof.
  induction s as [|c s IH]; simpl; [lia|].
  destruct (json_ws c); simpl; lia.
Qed.

Lemma parse_chars_length s t r :
  parse_chars s = Parsed t r -> (length r < length s)%nat.
Proof.
  revert t r. induction s as [s IH] using jsstring_length_ind. intros t r.
  destruct s as [|c s]; cbn [parse_chars]; [discriminate|].
  destruct (c =? 34); [intros [= _ <-]; simpl; lia|].
  destruct (c =? 92).
  - destruct s as [|e s]; [discriminate|].
    destruct (e =? 117).
    + destruct s as [|h1 [|h2 [|h3 [|h4 s]]]]; try discriminate.
      destruct (hex4 h1 h2 h3 h4); [|discriminate].
      destruct (parse_chars s) as [t' r'| |] eqn:E; try discriminate.
      intros [= _ <-]. apply IH in E; simpl in *; lia.
    + destruct (unescape e); [|discriminate].
      destruct (parse_chars s) as [t' r'| |] eqn:E; try discriminate.
      intros [= _ <-]. apply IH in E; simpl in *; lia.
  - destruct (c <? 32); [discriminate|].
    destruct (parse_chars s) as [t' r'| |] eqn:E; try discriminate.
    intros [= _ <-]. apply IH in E; simpl in *; lia.
Qed.

Lemma parse_chars_fuel s : parse_chars s <> OutOfFuel.
Proof.
  induction s as [s IH] using jsstring_length_ind.
  destruct s as [|c s]; cbn [parse_chars]; [discriminate|].
  destruct (c =? 34); [discriminate|].
  destruct (c =? 92).
  - destruct s as [|e s]; [discriminate|].
    destruct (e =? 117).
    + destruct s as [|h1 [|h2 [|h3 [|h4 s]]]]; try discriminate.
      destruct (hex4 h1 h2 h3 h4); [|discriminate].
      destruct (parse_chars s) eqn:E; try discriminate.
      exfalso. apply (IH s); [simpl; lia|exact E].
    + destruct (unescape e); [|discriminate].
      destruct (parse_chars s) eqn:E; try discriminate.
      exfalso. apply (IH s); [simpl; lia|exact E].
  - destruct (c <? 32); [discriminate|].
    destruct (parse_chars s) eqn:E; try discriminate.
    exfalso. apply (IH s); [simpl; lia|exact E].
Qed.

Lemma span_digits_length s : (length (snd (span_digits s)) <= length s)%nat.
Proof.
  induction s as [|c s IH]; simpl; [lia|].
  destruct (is_digit c); [|simpl; lia].
  destruct (span_digits s). simpl in *. lia.
Qed.

Lemma number_int_length s t r :
  number_int s = Parsed t r -> (length r < length s)%nat.
Proof.
  unfold number_int. destruct s as [|c s]; [discriminate|].
  destruct (c =? 48); [intros [= _ <-]; simpl; lia|].
  destruct (is_digit c); [|discriminate].
  pose proof (span_digits_length s) as H. destruct (span_digits s) as [d r'].
  intros [= _ <-]. simpl in *. lia.
Qed.

Lemma number_frac_length s t r :
  number_frac s = Parsed t r -> (length r <= length s)%nat.
Proof.
  unfold number_frac. destruct s as [|c s]; [intros [= _ <-]; lia|].
  destruct (c =? 46); [|intros [= _ <-]; lia].
  pose proof (span_digits_length s) as H. destruct (span_digits s) as [[|d ds] r'];
    [discriminate|].
  intros [= _ <-]. simpl in *. lia.
Qed.

Lemma number_exp_length s t r :
  number_exp s = Parsed t r -> (length r <= length s)%nat.
Proof.
  unfold number_exp. destruct s as [|c s]; [intros [= _ <-]; lia|].
  destruct ((c =? 101) || (c =? 69)); [|intros [= _ <-]; lia].
  destruct s as [|g s].
  - simpl. discriminate.
  - destruct ((g =? 43) || (g =? 45)).
    + pose proof (span_digits_length s) as H.
      destruct (span_digits s) as [[|d ds] r']; [discriminate|].
      intros [= _ <-]. simpl in *. lia.
    + pose proof (span_digits_length (g :: s)) as H.
      destruct (span_digits (g :: s)) as [[|d ds] r']; [discriminate|].
      intros [= _ <-]. simpl in *. lia.
Qed.

Lemma number_token_length s t r :
  number_token s = Parsed t r -> (length r < length s)%nat.
Proof.
  unfold number_token.
  assert (Hsign : forall s1 sign,
             (sign, s1) = match s with
                          | c :: s' => if c =? 45 then ([c], s') else ([], s)
                          | [] => ([], s)
                          end -> (length s1 <= length s)%nat).
  { intros s1 sign. destruct s as [|c s]; [intros [= _ ->]; lia|].
    destruct (c =? 45); intros [= _ ->]; simpl; lia. }
  destruct (match s with
            | c :: s' => if c =? 45 then ([c], s') else ([], s)
            | [] => ([], s)
            end) as [sign s1] eqn:E.
  specialize (Hsign s1 sign eq_refl).
  destruct (number_int s1) as [i s2| |] eqn:Ei; try discriminate.
  destruct (number_frac s2) as [f s3| |] eqn:Ef; try discriminate.
  destruct (number_exp s3) as [x s4| |] eqn:Ex; try discriminate.
  intros [= _ <-].
  apply number_int_length in Ei. apply number_frac_length in Ef.
  apply number_exp_length in Ex. lia.
Qed.

Lemma number_int_fuel s : number_int s <> OutOfFuel.
Proof.
  unfold number_int. destruct s as [|c s]; [discriminate|].
  destruct (c =? 48); [discriminate|].
  destruct (is_digit c); [|discriminate].
  destruct (span_digits s). discriminate.
Qed.

Lemma number_frac_fuel s : number_frac s <> OutOfFuel.
Proof.
  unfold number_frac. destruct s as [|c s]; [discriminate|].
  destruct (c =? 46); [|discriminate].
  destruct (span_digits s) as [[|d ds] r']; discriminate.
Qed.

Lemma number_exp_fuel s : number_exp s <> OutOfFuel.
Proof.
  unfold number_exp. destruct s as [|c s]; [discriminate|].
  destruct ((c =? 101) || (c =? 69)); [|discriminate].
  destruct (match s with
            | g :: t => if (g =? 43) || (g =? 45) then ([g], t) else ([], s)
            | [] => ([], s)
            end) as [sign s''].
  destruct (span_digits s'') as [[|d ds] r']; discriminate.
Qed.

Lemma number_token_fuel s : number_token s <> OutOfFuel.
Proof.
  unfold number_token.
  destruct (match s with
            | c :: s' => if c =? 45 then ([c], s') else ([], s)
            | [] => ([], s)
            end) as [sign s1].
  pose proof (number_int_fuel s1).
  destruct (number_int s1) as [i s2| |]; [|discriminate|contradiction].
  pose proof (number_frac_fuel s2).
  destruct (number_frac s2) as [f s3| |]; [|discriminate|contradiction].
  pose proof (number_exp_fuel s3).
  destruct (number_exp s3) as [x s4| |]; [discriminate|discriminate|contradiction].
Qed.

Section ParserFuel.

Context {NUM : Numeric}.

Lemma keyword_length k v s v' r :
  k <> [] -> keyword k v s = Parsed v' r -> (length r < length s)%nat.
Proof.
  unfold keyword. intros Hk. destruct (startsWith s k) eqn:E; [|discriminate].
  intros [= _ <-].
  assert (H : forall k s, startsWith s k = true -> (length k <= length s)%nat).
  { clear. induction k as [|p k IH]; intros [|c s]; simpl; try lia; try discriminate.
    intros H. apply andb_true_iff in H as [_ H]. apply IH in H. lia. }
  apply H in E. rewrite length_skipn. destruct k; [contradiction|]. simpl in *. lia.
Qed.

Lemma keyword_fuel k v s : keyword k v s <> OutOfFuel.
Proof. unfold keyword. destruct (startsWith s k); discriminate. Qed.

(** Every parsing function consumes at least one code unit. *)
Lemma parse_consumes fuel :
  (forall s v r, parse_value fuel s = Parsed v r -> (length r < length s)%nat)
  /\ (forall s l r, parse_elements fuel s = Parsed l r -> (length r < length s)%nat)
  /\ (forall s m r, parse_members fuel s = Parsed m r -> (length r < length s)%nat).
Proof.
  induction fuel as [|fuel (IHv & IHe & IHm)].
  { repeat split; intros; discriminate. }
  split; [|split].
  - intros s v r. cbn [parse_value].
    pose proof (skip_ws_length s) as Hs.
    destruct (skip_ws s) as [|c s'] eqn:Es; [discriminate|]. simpl in Hs.
    destruct (c =? 123).
    { pose proof (skip_ws_length s') as Hs'.
      destruct (skip_ws s') as [|d s''] eqn:Es'; [discriminate|]. simpl in Hs'.
      destruct (d =? 125); [intros [= _ <-]; lia|].
      destruct (parse_members fuel s') as [m r'| |] eqn:E; try discriminate.
      intros [= _ <-]. apply IHm in E. lia. }
    destruct (c =? 91).
    { pose proof (skip_ws_length s') as Hs'.
      destruct (skip_ws s') as [|d s''] eqn:Es'; [discriminate|]. simpl in Hs'.
      destruct (d =? 93); [intros [= _ <-]; lia|].
      destruct (parse_elements fuel s') as [l r'| |] eqn:E; try discriminate.
      intros [= _ <-]. apply IHe in E. lia. }
    destruct (c =? 34).
    { destruct (parse_chars s') as [t r'| |] eqn:E; try discriminate.
      intros [= _ <-]. apply parse_chars_length in E. lia. }
    destruct (c =? 116).
    { intros H. apply keyword_length in H; [simpl in H; lia|discriminate]. }
    destruct (c =? 102).
    { intros H. apply keyword_length in H; [simpl in H; lia|discriminate]. }
    destruct (c =? 110).
    { intros H. apply keyword_length in H; [simpl in H; lia|discriminate]. }
    destruct (number_token (c :: s')) as [t r'| |] eqn:E; try discriminate.
    intros [= _ <-]. apply number_token_length in E. simpl in E. lia.
  - intros s l r. cbn [parse_elements].
    destruct (parse_value fuel s) as [v r1| |] eqn:E; try discriminate.
    apply IHv in E.
    pose proof (skip_ws_length r1) as Hs.
    destruct (skip_ws r1) as [|c r'] eqn:Es; [discriminate|]. simpl in Hs.
    destruct (c =? 44).
    { destruct (parse_elements fuel r') as [l' r''| |] eqn:E'; try discriminate.
      intros [= _ <-]. apply IHe in E'. lia. }
    destruct (c =? 93); [|discriminate].
    intros [= _ <-]. lia.
  - intros s m r. cbn [parse_members].
    pose proof (skip_ws_length s) as Hs.
    destruct (skip_ws s) as [|q s1] eqn:Es; [discriminate|]. simpl in Hs.
    destruct (q =? 34); [|discriminate].
    destruct (parse_chars s1) as [k s2| |] eqn:Ek; try discriminate.
    apply parse_chars_length in Ek.
    pose proof (skip_ws_length s2) as Hs2.
    destruct (skip_ws s2) as [|colon s3] eqn:Es2; [discriminate|]. simpl in Hs2.
    destruct (colon =? 58); [|discriminate].
    destruct (parse_value fuel s3) as [v r1| |] eqn:Ev; try discriminate.
    apply IHv in Ev.
    pose proof (skip_ws_length r1) as Hr.
    destruct (skip_ws r1) as [|c r'] eqn:Er; [discriminate|]. simpl in Hr.
    destruct (c =? 44).
    { destruct (parse_members fuel r') as [m' r''| |] eqn:E'; try discriminate.
      intros [= _ <-]. apply IHm in E'. lia. }
    destruct (c =? 125); [|discriminate].
    intros [= _ <-]. lia.
Qed.

Lemma parse_fuel fuel :
  (forall s, (2 * length s + 1 <= fuel)%nat -> parse_value fuel s <> OutOfFuel)
  /\ (forall s, (2 * length s + 2 <= fuel)%nat -> parse_elements fuel s <> OutOfFuel)
  /\ (forall s, (2 * length s + 1 <= fuel)%nat -> parse_members fuel s <> OutOfFuel).
Proof.
  induction fuel as [|fuel (IHv & IHe & IHm)].
  { repeat split; intros; lia. }
  destruct (parse_consumes fuel) as (Cv & Ce & Cm).
  split; [|split].
  - intros s Hf. cbn [parse_value].
    pose proof (skip_ws_length s) as Hs.
    destruct (skip_ws s) as [|c s'] eqn:Es; [discriminate|]. simpl in Hs.
    destruct (c =? 123).
    { destruct (skip_ws s') as [|d s'']; [discriminate|].
      destruct (d =? 125); [discriminate|].
      pose proof (IHm s') as H.
      destruct (parse_members fuel s'); try discriminate. exfalso. apply H; [lia|reflexivity]. }
    destruct (c =? 91).
    { destruct (skip_ws s') as [|d s'']; [discriminate|].
      destruct (d =? 93); [discriminate|].
      pose proof (IHe s') as H.
      destruct (parse_elements fuel s'); try discriminate. exfalso. apply H; [lia|reflexivity]. }
    destruct (c =? 34).
    { pose proof (parse_chars_fuel s') as H.
      destruct (parse_chars s'); try discriminate. exfalso. apply H. reflexivity. }
    destruct (c =? 116); [apply keyword_fuel|].
    destruct (c =? 102); [apply keyword_fuel|].
    destruct (c =? 110); [apply keyword_fuel|].
    pose proof (number_token_fuel (c :: s')) as H.
    destruct (number_token (c :: s')); try discriminate. exfalso. apply H. reflexivity.
  - intros s Hf. cbn [parse_elements].
    pose proof (IHv s) as Hv. pose proof (Cv s) as Hc.
    destruct (parse_value fuel s) as [v r1| |]; [|discriminate|exfalso; apply Hv; [lia|reflexivity]].
    specialize (Hc v r1 eq_refl).
    pose proof (skip_ws_length r1) as Hs.
    destruct (skip_ws r1) as [|c r']; [discriminate|]. simpl in Hs.
    destruct (c =? 44).
    { pose proof (IHe r') as H.
      destruct (parse_elements fuel r'); try discriminate. exfalso. apply H; [lia|reflexivity]. }
    destruct (c =? 93); discriminate.
  - intros s Hf. cbn [parse_members].
    pose proof (skip_ws_length s) as Hs.
    destruct (skip_ws s) as [|q s1]; [discriminate|]. simpl in Hs.
    destruct (q =? 34); [|discriminate].
    pose proof (parse_chars_fuel s1) as Hk.
    destruct (parse_chars s1) as [k s2| |] eqn:Ek; [|discriminate|contradiction].
    apply parse_chars_length in Ek.
    pose proof (skip_ws_length s2) as Hs2.
    destruct (skip_ws s2) as [|colon s3]; [discriminate|]. simpl in Hs2.
    destruct (colon =? 58); [|discriminate].
    pose proof (IHv s3) as Hv. pose proof (Cv s3) as Hc.
    destruct (parse_value fuel s3) as [v r1| |]; [|discriminate|exfalso; apply Hv; [lia|reflexivity]].
    specialize (Hc v r1 eq_refl).
    pose proof (skip_ws_length r1) as Hr.
    destruct (skip_ws r1) as [|c r']; [discriminate|]. simpl in Hr.
    destruct (c =? 44).
    { pose proof (IHm r') as H.
      destruct (parse_members fuel r'); try discriminate. exfalso. apply H; [lia|reflexivity]. }
    destruct (c =? 125); discriminate.
Qed.

(** The fuel that [JSON_parse] gives is enough: [None] is a syntax
    error of the text, never a parser that gave up. *)
Lemma parse_value_fuel s : parse_value (JSON_fuel s) s <> OutOfFuel.
Proof.
  apply (proj1 (parse_fuel (JSON_fuel s))). unfold JSON_fuel. lia.
Qed.

Lemma JSON_parse_None s :
  JSON_parse s = None ->
  parse_value (JSON_fuel s) s = SyntaxError
  \/ exists v c r, parse_value (JSON_fuel s) s = Parsed v (c :: r)
                   /\ skip_ws (c :: r) <> [].
Proof.
  unfold JSON_parse. pose proof (parse_value_fuel s) as H.
  destruct (parse_value (JSON_fuel s) s) as [v r| |]; [|left; reflexivity|contradiction].
  destruct (skip_ws r) as [|c r'] eqn:E; [discriminate|].
  intros _. right. destruct r as [|c0 r0]; [discriminate|].
  exists v, c0, r0. split; [reflexivity|]. rewrite E. discriminate.
Qed.

End ParserFuel.

(** ** Framing across chunk boundaries *)

Lemma split_after_lines lines x :
  Forall (fun l => ~ In LF l) lines ->
  split LF (unlines lines ++ x) = lines ++ split LF x.
Proof.
  induction 1 as [|l lines H _ IH]; [reflexivity|].
  rewrite unlines_cons. rewrite <- app_assoc. simpl.
  rewrite split_line by exact H. rewrite IH. reflexivity.
Qed.

Lemma last_after {A} (a b : list A) d : b <> [] -> last (a ++ b) d = last b d.
Proof.
  intros Hb. induction a as [|x a IH]; [reflexivity|].
  simpl. destruct (a ++ b) eqn:E; [|exact IH].
  apply app_eq_nil in E as [_ E]. contradiction.
Qed.

Lemma split_carry_over s : ~ In LF (last (split LF s) []).
Proof.
  destruct (split_frames s) as [_ H].
  rewrite (app_removelast_last [] (split_nonempty LF s)) in H.
  apply Forall_app in H as [_ H]. apply Forall_inv in H. exact H.
Qed.

Lemma split_complete_lines s :
  Forall (fun l => ~ In LF l) (removelast (split LF s)).
Proof.
  destruct (split_frames s) as [_ H].
  rewrite (app_removelast_last [] (split_nonempty LF s)) in H.
  apply Forall_app in H as [H _]. exact H.
Qed.

Lemma frames_app a b :
  removelast (split LF (a ++ b))
  = removelast (split LF a) ++ removelast (split LF (last (split LF a) [] ++ b))
  /\ last (split LF (a ++ b)) [] = last (split LF (last (split LF a) [] ++ b)) [].
Proof.
  destruct (split_frames a) as [Ha _].
  pose proof (split_complete_lines a) as Hl.
  set (La := removelast (split LF a)) in *.
  set (ra := last (split LF a) []) in *.
  assert (E : split LF (a ++ b) = La ++ split LF (ra ++ b)).
  { rewrite Ha at 1. rewrite <- app_assoc. apply split_after_lines. exact Hl. }
  rewrite E. split.
  - apply removelast_app. apply split_nonempty.
  - apply last_after. apply split_nonempty.
Qed.

(** X2.  Incremental framing is associative: cutting a text in two and
    putting the carry-over of the first part before the second gives the
    complete lines and the last fragment of the whole text. *)
Theorem framing_is_associative (a b : jsstring) :
  removelast (split LF (a ++ b))
  = removelast (split LF a) ++ removelast (split LF (last (split LF a) [] ++ b))
  /\ last (split LF (a ++ b)) [] = last (split LF (last (split LF a) [] ++ b)) [].
Proof. exact (frames_app a b). Qed.

Section ChunkBoundaries.

Context {NUM : Numeric}.

Lemma parseSSELines_bind {B} buffer (k : jsstring -> M B) w :
  bind (parseSSELines buffer) k w
  = bind (for_lines (removelast (split LF buffer)) [])
         (fun _ => k (last (split LF buffer) [])) w.
Proof.
  unfold parseSSELines. rewrite bind_assoc. reflexivity.
Qed.

Lemma for_lines_app a b pending w :
  for_lines (a ++ b) pending w
  = (for_lines a pending ;;; for_lines b (pending_after a pending)) w.
Proof.
  revert pending w. induction a as [|line a IH]; intros pending w.
  - cbn [app for_lines pending_after]. unfold bind, ret. reflexivity.
  - cbn [app for_lines pending_after].
    destruct (startsWith line (js "event: ")); [apply IH|].
    destruct (startsWith line (js "data: ")); [|apply IH].
    rewrite bind_assoc. apply bind_ext. intros _ w'. apply IH.
Qed.

Lemma bind_eq_left {A B} (m m' : M A) (k : A -> M B) w :
  m w = m' w -> bind m k w = bind m' k w.
Proof. intros H. unfold bind. rewrite H. reflexivity. Qed.

(** Two calls give what one call on the whole text gives when no event
    type is pending at the boundary. *)
Lemma parseSSELines_app a b w :
  pending_after (removelast (split LF a)) [] = [] ->
  parseSSELines (a ++ b) w
  = (carry <- parseSSELines a ;; parseSSELines (carry ++ b)) w.
Proof.
  intros Hp. rewrite parseSSELines_bind.
  destruct (frames_app a b) as [El Er].
  unfold parseSSELines. rewrite El, Er.
  set (La := removelast (split LF a)) in *.
  set (ra := last (split LF a) []) in *.
  set (Lb := removelast (split LF (ra ++ b))).
  set (rb := last (split LF (ra ++ b)) []).
  rewrite <- bind_assoc. apply bind_eq_left.
  rewrite for_lines_app, Hp. reflexivity.
Qed.

End ChunkBoundaries.

(** ** Further properties *)

(** X3.  Chunk-boundary invariance, as far as the code has it: when no event
    type is pending where the arrivals are cut, feeding them one call at a
    time gives what one call on the whole text gives: the same state, the
    same calls in the same order, the same carry-over, the same throw. *)
Theorem feed_is_one_call_when_boundaries_are_clear `{Numeric}
    (chunks : list jsstring) (buffer : jsstring) (w : World) :
  ~ In LF buffer ->
  boundaries_clear chunks buffer ->
  feed chunks buffer w = parseSSELines (buffer ++ concat chunks) w.
Proof.
  revert buffer w. induction chunks as [|value rest IH]; intros buffer w Hb Hc.
  - cbn [feed concat]. rewrite app_nil_r. unfold parseSSELines.
    rewrite split_no_newline by exact Hb. reflexivity.
  - destruct Hc as [Hp Hc]. cbn [feed concat]. rewrite app_assoc.
    rewrite (parseSSELines_app _ _ w Hp).
    rewrite !parseSSELines_bind. apply bind_ext. intros _ w'.
    apply IH; [apply split_carry_over|exact Hc].
Qed.

Lemma feed_is_one_call_when_boundaries_are_clear_witness :
  boundaries_clear three_arrivals []
  /\ feed three_arrivals [] fresh
     = parseSSELines ([] ++ concat three_arrivals) fresh.
Proof.
  assert (Hc : boundaries_clear three_arrivals []).
  { repeat split. }
  split; [exact Hc|].
  apply (feed_is_one_call_when_boundaries_are_clear three_arrivals [] fresh).
  - intros [].
  - exact Hc.
Defined.

(** X1.  What the state machine cannot read it ignores: a payload that is
    not JSON, and an event type outside the five of the protocol, leave the
    state as it was and end the call normally, with one diagnostic. *)
Theorem processSSEEvent_ignores_what_it_cannot_read `{Numeric}
    (et d : jsstring) (w : World) :
  (JSON_parse d = None ->
     processSSEEvent et d w
     = (Normal tt,
        {| state := state w;
           calls := calls w ++ [core_debug (js "Failed to parse SSE data: " ++ d)] |}))
  /\ (known_type et = false ->
        exists message,
          processSSEEvent et d w
          = (Normal tt,
             {| state := state w; calls := calls w ++ [core_debug message] |})).
Proof.
  split.
  - apply processSSEEvent_invalid_json.
  - apply processSSEEvent_unknown_type.
Qed.

Lemma processSSEEvent_ignores_what_it_cannot_read_witness :
  JSON_parse (js "not-json") = None
  /\ processSSEEvent (js "stdout") (js "not-json") fresh
     = (Normal tt,
        {| state := initial_state;
           calls := [core_debug (js "Failed to parse SSE data: not-json")] |}).
Proof.
  split; [reflexivity|].
  apply (proj1 (processSSEEvent_ignores_what_it_cannot_read
                  (js "stdout") (js "not-json") fresh)).
  reflexivity.
Defined.

(** X4.  Every fault thrown inside the [try] of [run] reaches the failure
    channel through the sanitizer: the message given to [setFailed] by the
    [catch] holds the pattern only as the replacement text. *)
Theorem run_sanitizes_thrown_faults `{Numeric}
    (before : list CoreCall) (submitted : completion number)
    (fetch : completion Response) (duration : number) (e : Thrown) (w : World) :
  (timeoutMs <- lift submitted ;; report fetch timeoutMs duration)
    {| state := initial_state; calls := before |} = (Throw e, w) ->
  run before submitted fetch duration
  = calls w ++ [core_setFailed (sanitize (message_of e))]
  /\ (forall u t r,
        sanitize (message_of e) = u ++ t -> match_bearer t = Some r ->
        t = js "Bearer ***" ++ r).
Proof.
  intros Hbody. split.
  - unfold run. rewrite Hbody. reflexivity.
  - apply sanitize_clean.
Qed.

Lemma run_sanitizes_thrown_faults_witness :
  run [] (Throw leaking_fault) (Throw abort_error) (number_of_literal (js "7"))
  = [core_setFailed (js "Request failed with Bearer *** in header")].
Proof.
  exact (proj1 (run_sanitizes_thrown_faults [] (Throw leaking_fault)
                  (Throw abort_error) (number_of_literal (js "7"))
                  leaking_fault fresh eq_refl)).
Defined.

(** ** The pattern of the sanitizer, in words *)

Lemma match_ci_spec pattern s r :
  match_ci pattern s = Some r <->
  exists b, s = b ++ r /\ Forall2 ci_letter b pattern.
Proof.
  revert s. induction pattern as [|p pattern IH]; intros s; cbn [match_ci].
  - split.
    + intros [= ->]. exists []. split; [reflexivity|constructor].
    + intros (b & -> & Hb). inversion Hb. reflexivity.
  - destruct s as [|c s].
    + split; [discriminate|].
      intros (b & Hs & Hb). inversion Hb; subst. discriminate.
    + destruct ((c =? p) || (c =? p - 32)) eqn:E.
      * rewrite IH. split.
        -- intros (b & -> & Hb). exists (c :: b). split; [reflexivity|].
           constructor; [|exact Hb].
           apply orb_true_iff in E as [E|E]; apply N.eqb_eq in E; [left|right]; exact E.
        -- intros (b & Hs & Hb). inversion Hb as [|c' p' b' ? _ Hb']; subst.
           injection Hs as _ ->. exists b'. split; [reflexivity|exact Hb'].
      * split; [discriminate|].
        intros (b & Hs & Hb). inversion Hb as [|c' p' b' ? [Hc|Hc] Hb']; subst;
          injection Hs as -> _; apply orb_false_iff in E as [E1 E2];
          rewrite N.eqb_refl in *; discriminate.
Qed.

Lemma star_spec p s :
  exists a, s = a ++ star p s /\ Forall (fun c => p c = true) a.
Proof.
  induction s as [|c s (a & Hs & Ha)]; cbn [star].
  - exists []. split; [reflexivity|constructor].
  - destruct (p c) eqn:E.
    + exists (c :: a). split; [simpl; f_equal; exact Hs|constructor; assumption].
    + exists []. split; [reflexivity|constructor].
Qed.

Lemma star_stops p s :
  match star p s with [] => True | c :: _ => p c = false end.
Proof.
  induction s as [|c s IH]; cbn [star]; [exact I|].
  destruct (p c) eqn:E; [exact IH|exact E].
Qed.

Lemma star_app p a rest :
  Forall (fun c => p c = true) a ->
  match rest with [] => True | c :: _ => p c = false end ->
  star p (a ++ rest) = rest.
Proof.
  intros Ha Hr. induction Ha as [|c a Hc _ IH]; simpl.
  - destruct rest as [|c rest]; [reflexivity|]. simpl. rewrite Hr. reflexivity.
  - rewrite Hc. exact IH.
Qed.

(** X5.  A match is: the letters of [bearer] in any case, one or more code
    units of white space, and a token of one or more code units that are no
    white space, ended by white space or by the end of the text. *)
Theorem match_bearer_spec (s r : jsstring) :
  match_bearer s = Some r <->
  exists b w t,
    s = b ++ w ++ t ++ r
    /\ Forall2 ci_letter b (js "bearer")
    /\ w <> [] /\ Forall (fun c => is_ws c = true) w
    /\ t <> [] /\ Forall (fun c => is_ws c = false) t
    /\ at_boundary r.
Proof.
  unfold match_bearer. split.
  - destruct (match_ci (js "bearer") s) as [s1|] eqn:E1; [|discriminate].
    apply match_ci_spec in E1 as (b & -> & Hb).
    destruct s1 as [|c1 s1]; [discriminate|]. cbn [plus].
    destruct (is_ws c1) eqn:Ec1; [|discriminate].
    destruct (star_spec is_ws s1) as (w & Hw & Hws).
    pose proof (star_stops is_ws s1) as Hstop.
    destruct (star is_ws s1) as [|c2 s2]; [discriminate|]. cbn [plus].
    unfold not_ws at 1. rewrite Hstop. cbn [negb].
    intros [= <-].
    destruct (star_spec not_ws s2) as (t & Ht & Hts).
    exists b, (c1 :: w), (c2 :: t). repeat split.
    + rewrite Hw. simpl. rewrite <- Ht. reflexivity.
    + exact Hb.
    + discriminate.
    + constructor; assumption.
    + discriminate.
    + constructor; [exact Hstop|].
      eapply Forall_impl; [|exact Hts]. intros c Hc. unfold not_ws in Hc.
      destruct (is_ws c); [discriminate|reflexivity].
    + apply star_not_ws_boundary.
  - intros (b & w & t & -> & Hb & Hw & Hws & Ht & Hts & Hr).
    assert (E1 : match_ci (js "bearer") (b ++ w ++ t ++ r) = Some (w ++ t ++ r)).
    { apply match_ci_spec. exists b. split; [reflexivity|exact Hb]. }
    rewrite E1.
    destruct w as [|c1 w]; [contradiction|].
    destruct t as [|c2 t]; [contradiction|].
    inversion Hws as [|? ? Hc1 Hw']; subst.
    inversion Hts as [|? ? Hc2 Ht']; subst.
    cbn [app plus]. rewrite Hc1.
    rewrite (star_app is_ws w (c2 :: t ++ r) Hw' Hc2). cbn [plus].
    unfold not_ws at 1. rewrite Hc2. cbn [negb]. f_equal.
    apply star_app.
    + eapply Forall_impl; [|exact Ht']. intros c Hc. unfold not_ws. rewrite Hc.
      reflexivity.
    + destruct r as [|c r]; [exact I|]. simpl in Hr. unfold not_ws. rewrite Hr.
      reflexivity.
Qed.

(** ** The scenarios of the test suite *)

Example parse_hello :
  JSON_parse (jq "{'data':'hello'}") = Some (JObject [(js "data", JString (js "hello"))]).
Proof. reflexivity. Qed.

Example parse_nested :
  JSON_parse (jq " [1, {'a': [true, null]}, 'xA\n'] ")
  = Some (JArray [JNumber (js "1");
                  JObject [(js "a", JArray [JBool true; JNull])];
                  JString (js "xA" ++ [10])]).
Proof. reflexivity. Qed.

Example parse_bad : JSON_parse (js "not-json") = None.
Proof. reflexivity. Qed.

Example parse_null : JSON_parse (js "null") = Some JNull.
Proof. reflexivity. Qed.

Example parse_trailing : JSON_parse (js "{} x") = None.
Proof. reflexivity. Qed.

Example scenario_hello :
  parseSSELines (ln "event: stdout" ++ ln "data: {'data':'hello'}" ++ ln "") fresh
  = (Normal [],
     {| state := {| outputBuffer := js "hello"; status := js "unknown";
                    error := JNull; costUsd := None |};
        calls := [core_info (js "hello")] |}).
Proof. reflexivity. Qed.

Example scenario_partial :
  parseSSELines (ln "event: stdout" ++ ln "data: {'data':'hello'}" ++ js "partial") fresh
  = (Normal (js "partial"),
     {| state := {| outputBuffer := js "hello"; status := js "unknown";
                    error := JNull; costUsd := None |};
        calls := [core_info (js "hello")] |}).
Proof. reflexivity. Qed.

Example scenario_complete :
  state (snd (processSSEEvent (js "complete") (jq "{'costUsd':0.05}") fresh))
  = {| outputBuffer := []; status := js "completed"; error := JNull;
       costUsd := Some (JNumber (js "0.05")) |}.
Proof. reflexivity. Qed.

Example scenario_null_payload :
  processSSEEvent (js "stdout") (js "null") fresh
  = (Throw (null_property (js "data")), fresh).
Proof. reflexivity. Qed.

Example test_multiple_events_in_one_buffer :
  outputBuffer (state (snd (parseSSELines
    (ln "event: stdout" ++ ln "data: {'data':'line1'}"
     ++ ln "event: stdout" ++ ln "data: {'data':'line2'}") fresh)))
  = js "line1line2".
Proof. reflexivity. Qed.

Example test_empty_buffer : parseSSELines [] fresh = (Normal [], fresh).
Proof. reflexivity. Qed.

Example test_ignores_other_lines :
  outputBuffer (state (snd (parseSSELines
    (ln ":comment" ++ ln "id: 123" ++ ln "event: stdout" ++ ln "data: {'data':'ok'}")
    fresh)))
  = js "ok".
Proof. reflexivity. Qed.

Example test_start_event :
  processSSEEvent (js "start") (js "{}") fresh
  = (Normal tt,
     {| state := initial_state;
        calls := [core_info (js "[Stream] Task execution started")] |}).
Proof. reflexivity. Qed.

Example test_stderr_event :
  processSSEEvent (js "stderr") (jq "{'data':'warning msg'}") fresh
  = (Normal tt,
     {| state := initial_state;
        calls := [core_warning (js "[stderr] warning msg")] |}).
Proof. reflexivity. Qed.

Example test_error_event :
  processSSEEvent (js "error") (jq "{'error':'task crashed'}") fresh
  = (Normal tt,
     {| state := {| outputBuffer := []; status := js "failed";
                    error := JString (js "task crashed"); costUsd := None |};
        calls := [core_error (js "[Stream] Task failed: task crashed")] |}).
Proof. reflexivity. Qed.

Example test_default_error_message :
  error (state (snd (processSSEEvent (js "error") (js "{}") fresh)))
  = JString (js "Unknown error").
Proof. reflexivity. Qed.

Example test_invalid_json :
  processSSEEvent (js "stdout") (js "not-json") fresh
  = (Normal tt,
     {| state := initial_state;
        calls := [core_debug (js "Failed to parse SSE data: not-json")] |}).
Proof. reflexivity. Qed.

Example test_unknown_event_type :
  processSSEEvent (js "custom-event") (js "{}") fresh
  = (Normal tt,
     {| state := initial_state;
        calls := [core_debug (js "Unknown event type: custom-event")] |}).
Proof. reflexivity. Qed.

Example test_stdout_without_data :
  processSSEEvent (js "stdout") (js "{}") fresh = (Normal tt, fresh).
Proof. reflexivity. Qed.

Example test_stream_completed :
  fst (streamTaskOutput
         (Normal (sse_response
            [read_chunk (ln "event: start" ++ ln "data: {}" ++ ln "");
             read_chunk (ln "event: stdout" ++ ln "data: {'data':'output text'}" ++ ln "");
             read_chunk (ln "event: complete" ++ ln "data: {'costUsd':0.12}" ++ ln "")]))
         (number_of_literal (js "30000")) fresh)
  = Normal {| result_status := js "completed";
              result_output := Some (js "output text");
              result_costUsd := Some (JNumber (number_of_literal (js "0.12")));
              result_error := JNull |}.
Proof. reflexivity. Qed.

Example test_stream_failed :
  fst (streamTaskOutput
         (Normal (sse_response
            [read_chunk (ln "event: error" ++ ln "data: {'error':'container crashed'}"
                         ++ ln "")]))
         (number_of_literal (js "30000")) fresh)
  = Normal {| result_status := js "failed"; result_output := None;
              result_costUsd := None;
              result_error := JString (js "container crashed") |}.
Proof. reflexivity. Qed.

Example test_json_answer_with_error :
  fst (streamTaskOutput
         (Normal {| ok := true;
                    response_status := number_of_literal (js "200");
                    response_text := Normal [];
                    content_type := Some (js "application/json");
                    response_json :=
                      Normal (JObject [(js "error", JString (js "task not found"))]);
                    reads := [] |})
         (number_of_literal (js "30000")) fresh)
  = Normal {| result_status := js "failed"; result_output := None;
              result_costUsd := None;
              result_error := JString (js "task not found") |}.
Proof. reflexivity. Qed.

Example test_json_answer_with_nested_error :
  fst (streamTaskOutput
         (Normal {| ok := true;
                    response_status := number_of_literal (js "200");
                    response_text := Normal [];
                    content_type := Some (js "application/json");
                    response_json :=
                      Normal (JObject
                                [(js "error",
                                  JObject [(js "message",
                                            JString (js "detailed error"))])]);
                    reads := [] |})
         (number_of_literal (js "30000")) fresh)
  = Normal {| result_status := js "failed"; result_output := None;
              result_costUsd := None;
              result_error := JString (js "detailed error") |}.
Proof. reflexivity. Qed.

Example test_connection_refused :
  fst (streamTaskOutput
         (Normal {| ok := false;
                    response_status := number_of_literal (js "401");
                    response_text := Normal (js "Unauthorized");
                    content_type := None;
                    response_json := Throw (TypeError (js "no body"));
                    reads := [] |})
         (number_of_literal (js "30000")) fresh)
  = Throw (ErrorObject (js "Error") (js "SSE connection failed (401): Unauthorized")).
Proof. reflexivity. Qed.

Example test_stream_ends_without_terminal_event :
  fst (streamTaskOutput
         (Normal (sse_response
            [read_chunk (ln "event: stdout" ++ ln "data: {'data':'partial'}" ++ ln "")]))
         (number_of_literal (js "30000")) fresh)
  = Normal {| result_status := js "unknown"; result_output := Some (js "partial");
              result_costUsd := None; result_error := JNull |}.
Proof. reflexivity. Qed.

Example test_run_reports_failure :
  run [] (Normal (number_of_literal (js "60000")))
    (Normal (sse_response
       [read_chunk (ln "event: error" ++ ln "data: {'error':'container OOM'}" ++ ln "")]))
    (number_of_literal (js "5"))
  = [core_error (js "[Stream] Task failed: container OOM");
     core_setOutput (js "result") (js "failed");
     core_setOutput (js "duration-ms") (js "5");
     core_setFailed (js "Task execution failed: container OOM")].
Proof. reflexivity. Qed.

Example test_run_sanitizes_thrown_fault :
  run [] (Throw leaking_fault) (Throw abort_error) (number_of_literal (js "5"))
  = [core_setFailed (js "Request failed with Bearer *** in header")].
Proof. reflexivity. Qed.

(** A token consumed as the token of an earlier match is not a match
    of its own: the text after it stays. *)
Example sanitize_overlap :
  sanitize (js "Bearer Bearer abc123") = js "Bearer *** abc123".
Proof. reflexivity. Qed.

Example sanitize_case_and_space :
  sanitize (js "bearer  x BEARER" ++ [9] ++ js "y.z Bearer")
  = js "Bearer *** Bearer *** Bearer".
Proof. reflexivity. Qed.

(** ** What every event preserves *)

(** A relation between worlds that every event respects is respected by
    a buffer, by the read loop and by the whole stream, however they end. *)
Section Lifting.

Context {NUM : Numeric}.

Variable R : World -> World -> Prop.
Hypothesis R_refl : forall w, R w w.
Hypothesis R_trans : forall a b c, R a b -> R b c -> R a c.
Hypothesis R_step : forall et d w, R w (snd (processSSEEvent et d w)).

Lemma dispatch_all_keeps events w : R w (snd (dispatch_all events w)).
Proof.
  revert w. induction events as [|[et d] events IH]; intros w.
  - apply R_refl.
  - cbn [dispatch_all]. unfold bind.
    pose proof (R_step et d w) as H1.
    destruct (processSSEEvent et d w) as [[[]|e] w1]; cbn [snd] in *.
    + apply (R_trans _ _ _ H1). apply IH.
    + exact H1.
Qed.

Lemma parseSSELines_keeps buffer w : R w (snd (parseSSELines buffer w)).
Proof.
  unfold parseSSELines, bind. rewrite for_lines_decode.
  pose proof (dispatch_all_keeps (decode (removelast (split LF buffer)) []) w) as H1.
  destruct (dispatch_all _ w) as [[[]|e] w1]; exact H1.
Qed.

Lemma read_loop_keeps rs buffer w : R w (snd (read_loop rs buffer w)).
Proof.
  revert buffer w. induction rs as [|r rs IH]; intros buffer w.
  - apply R_refl.
  - destruct r as [value| |e]; cbn [read_loop]; try apply R_refl.
    unfold bind, read_state.
    pose proof (parseSSELines_keeps (buffer ++ value) w) as H1.
    destruct (parseSSELines (buffer ++ value) w) as [[carry|e] w1]; cbn [snd] in *.
    + destruct (terminal (status (state w1))); [exact H1|].
      apply (R_trans _ _ _ H1). apply IH.
    + exact H1.
Qed.

Lemma attempt_keeps fetch w : R w (snd (attempt fetch w)).
Proof.
  unfold attempt, degraded. unfold_M.
  destruct fetch as [response|e]; [|apply R_refl].
  destruct (negb (ok response)).
  { destruct (response_text response); apply R_refl. }
  assert (Hloop : R w (snd (let (c, w') := read_loop (reads response) [] w in
                            match c with
                            | Normal _ =>
                                (Normal
                                   {| result_status := status (state w');
                                      result_output :=
                                        match outputBuffer (state w') with
                                        | [] => None
                                        | _ :: _ => Some (outputBuffer (state w'))
                                        end;
                                      result_costUsd := costUsd (state w');
                                      result_error := error (state w') |}, w')
                            | Throw e => (Throw e, w')
                            end))).
  { pose proof (read_loop_keeps (reads response) [] w) as H1.
    destruct (read_loop (reads response) [] w) as [[[]|e] w1]; exact H1. }
  destruct (includes _ _); [|exact Hloop].
  destruct (response_json response) as [j|e]; [|apply R_refl].
  destruct (Get j (js "error")) as [e|x]; [|apply R_refl].
  destruct (truthy e); [|exact Hloop].
  destruct (is_object e); [|apply R_refl].
  destruct e as [o|]; [|apply R_refl].
  destruct (Get o (js "message")); apply R_refl.
Qed.

Lemma streamTaskOutput_keeps fetch timeoutMs w :
  R {| state := initial_state; calls := calls w |}
    (snd (streamTaskOutput fetch timeoutMs w)).
Proof.
  unfold streamTaskOutput.
  pose proof (attempt_keeps fetch {| state := initial_state; calls := calls w |}) as H1.
  destruct (attempt fetch _) as [[r|e] w1]; [exact H1|].
  destruct (is_abort e); exact H1.
Qed.

End Lifting.

Section Growth.

Context {NUM : Numeric}.

Lemma extends_refl w : extends w w.
Proof.
  split; [exists []|exists []; split; [|reflexivity]]; symmetry; apply app_nil_r.
Qed.

Lemma extends_trans a b c : extends a b -> extends b c -> extends a c.
Proof.
  intros [[t1 H1] [l1 [H2 H3]]] [[t2 H4] [l2 [H5 H6]]]. split.
  - exists (t1 ++ t2). rewrite H4, H1. symmetry. apply app_assoc.
  - exists (l1 ++ l2). split.
    + rewrite H5, H2. symmetry. apply app_assoc.
    + rewrite forallb_app, H3, H6. reflexivity.
Qed.

(** One event: the output grows by a suffix, and at most one call is
    made, to the log. *)
Lemma processSSEEvent_grows et d w :
  exists t added,
    outputBuffer (state (snd (processSSEEvent et d w))) = outputBuffer (state w) ++ t
    /\ calls (snd (processSSEEvent et d w)) = calls w ++ added
    /\ (length added <= 1)%nat
    /\ forallb is_log added = true.
Proof.
  unfold processSSEEvent. unfold_M. split_cases.
  all: cbn [snd state calls outputBuffer].
  all: first
    [ exists [], []; rewrite !app_nil_r; repeat split; simpl; lia
    | exists []; eexists [_]; rewrite !app_nil_r; repeat split; simpl; lia
    | eexists; eexists [_]; repeat split; simpl; lia ].
Qed.

Lemma processSSEEvent_extends et d w : extends w (snd (processSSEEvent et d w)).
Proof.
  destruct (processSSEEvent_grows et d w) as [t [added [H1 [H2 [_ H3]]]]].
  split; [exists t; exact H1|exists added; split; assumption].
Qed.

End Growth.

(** X7.  The decoder only ever adds.  Whatever an event is and however its
    processing ends, the output buffer afterwards is the one before with a
    text appended, and at most one call is made, which writes to the log of
    the workflow.  The same holds for a buffer of lines and for the read
    loop; and a whole stream makes only log calls, after those made before
    it: outputs and failures are never set while the stream is decoded. *)
Theorem the_decoder_only_appends `{Numeric} :
  (forall et d w,
     exists t added,
       outputBuffer (state (snd (processSSEEvent et d w)))
       = outputBuffer (state w) ++ t
       /\ calls (snd (processSSEEvent et d w)) = calls w ++ added
       /\ (length added <= 1)%nat
       /\ forallb is_log added = true)
  /\ (forall buffer w, extends w (snd (parseSSELines buffer w)))
  /\ (forall rs buffer w, extends w (snd (read_loop rs buffer w)))
  /\ (forall fetch timeoutMs w,
        exists added,
          calls (snd (streamTaskOutput fetch timeoutMs w)) = calls w ++ added
          /\ forallb is_log added = true).
Proof.
  split; [exact processSSEEvent_grows|].
  split; [|split].
  - intros buffer w.
    apply (parseSSELines_keeps extends extends_refl extends_trans
             processSSEEvent_extends).
  - intros rs buffer w.
    apply (read_loop_keeps extends extends_refl extends_trans
             processSSEEvent_extends).
  - intros fetch timeoutMs w.
    exact (proj2 (streamTaskOutput_keeps extends extends_refl extends_trans
                    processSSEEvent_extends fetch timeoutMs w)).
Qed.

(** X8.  Each field of the state has one writer.  However the processing
    of an event ends: only a [stdout] event changes the output buffer, only
    an [error] event changes the error, only a [complete] event changes the
    cost; and an event of any other type ([start], [stderr], an unknown
    one) leaves the whole state as it was. *)
Theorem each_field_has_one_writer `{Numeric} (et d : jsstring) (w : World) :
  (et <> js "stdout" ->
     outputBuffer (state (snd (processSSEEvent et d w))) = outputBuffer (state w))
  /\ (et <> js "error" ->
        error (state (snd (processSSEEvent et d w))) = error (state w))
  /\ (et <> js "complete" ->
        costUsd (state (snd (processSSEEvent et d w))) = costUsd (state w))
  /\ (et <> js "stdout" -> et <> js "complete" -> et <> js "error" ->
        state (snd (processSSEEvent et d w)) = state w).
Proof.
  split; [|split; [|split]].
  - intros Hne. unfold processSSEEvent. unfold_M. split_cases.
    all: try reflexivity.
    all: is_type; congruence.
  - intros Hne. unfold processSSEEvent. unfold_M. split_cases.
    all: try reflexivity.
    all: is_type; congruence.
  - apply processSSEEvent_costUsd.
  - intros H1 H2 H3. unfold processSSEEvent. unfold_M. split_cases.
    all: try reflexivity.
    all: repeat is_type; congruence.
Qed.

Lemma each_field_has_one_writer_witness :
  state (snd (processSSEEvent (js "stderr") (jq "{'data':'warning: low memory'}")
                after_complete))
  = state after_complete.
Proof.
  apply (proj2 (proj2 (proj2 (each_field_has_one_writer
                                (js "stderr") (jq "{'data':'warning: low memory'}")
                                after_complete)))); discriminate.
Defined.

(** ** The output of a run of [stdout] events *)

Section Output.

Context {NUM : Numeric}.

Lemma processSSEEvent_stdout_text d w event t :
  JSON_parse d = Some event ->
  Get event (js "data") = Normal (Some (JString t)) ->
  processSSEEvent (js "stdout") d w
  = (Normal tt,
     {| state := {| outputBuffer := outputBuffer (state w) ++ t;
                    status := status (state w);
                    error := error (state w);
                    costUsd := costUsd (state w) |};
        calls := calls w ++ List.map core_info (filter nonempty [t]) |}).
Proof.
  intros Hp Hg. unfold processSSEEvent. rewrite Hp.
  change (str_eqb (js "stdout") (js "start")) with false.
  change (str_eqb (js "stdout") (js "stdout")) with true.
  unfold_M. rewrite Hg. destruct w as [[ob st er co] cl].
  destruct t as [|c t]; cbn; rewrite ?app_nil_r; reflexivity.
Qed.

Lemma decode_stdout_lines payloads pending :
  decode (stdout_lines payloads) pending
  = List.map (fun d => (js "stdout", d)) payloads.
Proof.
  revert pending. induction payloads as [|d payloads IH]; intros pending.
  - reflexivity.
  - cbn [stdout_lines flat_map app]. fold (stdout_lines payloads).
    cbn [decode].
    change (startsWith (js "event: stdout") (js "event: ")) with true.
    cbv iota.
    rewrite (data_line_is_no_event_line _ (startsWith_app (js "data: ") d)).
    rewrite (startsWith_app (js "data: ") d).
    cbn [List.map]. f_equal. cbn [decode].
    change (startsWith [] (js "event: ")) with false.
    change (startsWith [] (js "data: ")) with false.
    cbv iota. apply IH.
Qed.

Lemma dispatch_all_stdout payloads texts w :
  Forall2 stdout_payload payloads texts ->
  dispatch_all (List.map (fun d => (js "stdout", d)) payloads) w
  = (Normal tt,
     {| state := {| outputBuffer := outputBuffer (state w) ++ concat texts;
                    status := status (state w);
                    error := error (state w);
                    costUsd := costUsd (state w) |};
        calls := calls w ++ List.map core_info (filter nonempty texts) |}).
Proof.
  intros Hall. revert w.
  induction Hall as [|d t payloads texts [_ [event [Hp Hg]]] _ IH]; intros w.
  - destruct w as [[ob st er co] cl]. cbn. rewrite !app_nil_r. reflexivity.
  - cbn [List.map dispatch_all]. unfold bind.
    rewrite (processSSEEvent_stdout_text d w event t Hp Hg).
    rewrite IH. cbn [state calls outputBuffer status error costUsd concat].
    rewrite <- !app_assoc, <- map_app.
    change (t :: texts) with ([t] ++ texts). rewrite filter_app. reflexivity.
Qed.

Lemma parseSSELines_stdout payloads texts remainder w :
  Forall2 stdout_payload payloads texts ->
  ~ In LF remainder ->
  parseSSELines (unlines (stdout_lines payloads) ++ remainder) w
  = (Normal remainder,
     {| state := {| outputBuffer := outputBuffer (state w) ++ concat texts;
                    status := status (state w);
                    error := error (state w);
                    costUsd := costUsd (state w) |};
        calls := calls w ++ List.map core_info (filter nonempty texts) |}).
Proof.
  intros Hall Hr.
  rewrite parseSSELines_frames; [|clear - Hall|exact Hr].
  - unfold bind. rewrite decode_stdout_lines.
    rewrite (dispatch_all_stdout payloads texts w Hall). reflexivity.
  - induction Hall as [|d t payloads texts [Hd _] _ IH]; [constructor|].
    cbn [stdout_lines flat_map app].
    constructor; [|constructor; [|constructor; [|exact IH]]].
    + apply no_newline_check. reflexivity.
    + intros Hin. apply in_app_or in Hin as [Hin|Hin]; [|exact (Hd Hin)].
      revert Hin. apply no_newline_check. reflexivity.
    + intros [].
Qed.

End Output.

(** X9.  The output is the texts of the [stdout] events, in order.  A
    buffer made of [stdout] events (event line, data line, blank line), each
    with a payload on one line whose [data] is a text, returns its
    carry-over with the texts appended to the output buffer in the order of
    the lines, each non-empty text echoed once to the log (an empty one is
    skipped), and nothing else changed. *)
Theorem stdout_texts_are_concatenated `{Numeric}
    (payloads texts : list jsstring) (remainder : jsstring) (w : World) :
  Forall2 stdout_payload payloads texts ->
  ~ In LF remainder ->
  parseSSELines (unlines (stdout_lines payloads) ++ remainder) w
  = (Normal remainder,
     {| state := {| outputBuffer := outputBuffer (state w) ++ concat texts;
                    status := status (state w);
                    error := error (state w);
                    costUsd := costUsd (state w) |};
        calls := calls w ++ List.map core_info (filter nonempty texts) |}).
Proof. apply parseSSELines_stdout. Qed.

Lemma stdout_texts_are_concatenated_witness :
  parseSSELines
    (unlines (stdout_lines [jq "{'data':'Hello '}"; jq "{'data':''}";
                            jq "{'data':'world'}"]) ++ js "event: comp")
    fresh
  = (Normal (js "event: comp"),
     {| state := {| outputBuffer := js "Hello world"; status := js "unknown";
                    error := JNull; costUsd := None |};
        calls := [core_info (js "Hello "); core_info (js "world")] |}).
Proof.
  apply (stdout_texts_are_concatenated
           [jq "{'data':'Hello '}"; jq "{'data':''}"; jq "{'data':'world'}"]
           [js "Hello "; []; js "world"] (js "event: comp") fresh).
  - repeat constructor; try (apply no_newline_check; reflexivity);
      eexists; split; reflexivity.
  - apply no_newline_check. reflexivity.
Defined.

(** ** The end of the stream *)

Section EndOfStream.

Context {NUM : Numeric}.

(** Text without a newline added to a buffer adds no complete line: it
    only lengthens the carry-over. *)
Lemma parseSSELines_tail x frag w :
  ~ In LF frag ->
  parseSSELines (x ++ frag) w = (c <- parseSSELines x ;; ret (c ++ frag)) w.
Proof.
  intros Hf. rewrite parseSSELines_bind. unfold parseSSELines.
  destruct (frames_app x frag) as [El Er]. rewrite El, Er.
  assert (Hn : ~ In LF (last (split LF x) [] ++ frag)).
  { intros Hin. apply in_app_or in Hin as [Hin|Hin]; [|exact (Hf Hin)].
    exact (split_carry_over x Hin). }
  rewrite (split_no_newline _ Hn). cbn [removelast last]. rewrite app_nil_r.
  reflexivity.
Qed.

Lemma read_loop_tail rs value frag buffer w :
  ~ In LF frag ->
  read_loop (rs ++ [read_chunk (value ++ frag)]) buffer w
  = read_loop (rs ++ [read_chunk value]) buffer w.
Proof.
  intros Hf. revert buffer w. induction rs as [|r rs IH]; intros buffer w.
  - cbn [app read_loop]. rewrite app_assoc.
    unfold bind at 1 3. rewrite (parseSSELines_tail (buffer ++ value) frag w Hf).
    unfold bind, ret, read_state.
    destruct (parseSSELines (buffer ++ value) w) as [[c|e] w1]; [|reflexivity].
    destruct (terminal (status (state w1))); reflexivity.
  - destruct r as [v| |e]; cbn [app read_loop]; try reflexivity.
    apply bind_ext. intros c w1. unfold bind, read_state.
    destruct (terminal (status (state w1))); [reflexivity|apply IH].
Qed.

(** The body of the [try] once the connection is accepted. *)
Lemma attempt_ok response w :
  ok response = true ->
  attempt (Normal response) w
  = (early <- degraded response ;;
     match early with
     | Some r => ret r
     | None =>
         read_loop (reads response) [] ;;;
         st <- read_state ;;
         ret {| result_status := status st;
                result_output := match outputBuffer st with
                                 | [] => None
                                 | _ :: _ => Some (outputBuffer st)
                                 end;
                result_costUsd := costUsd st;
                result_error := error st |}
     end) w.
Proof.
  intros Hok. unfold attempt. unfold bind at 1. unfold lift at 1.
  rewrite Hok. reflexivity.
Qed.

End EndOfStream.

(** X10.  What follows the last newline of a stream is never dispatched.
    When the last chunk of a response ends with a text that holds no
    newline, the stream gives the result, the state and the calls it gives
    without that text: an event whose [data: ] line is not closed by a
    newline before the stream ends is lost. *)
Theorem unterminated_last_line_is_dropped `{Numeric}
    (rs : list ReadResult) (value frag : jsstring)
    (code : number) (text : completion jsstring) (type : option jsstring)
    (json : completion JSValue) (timeoutMs : number) (w : World) :
  ~ In LF frag ->
  streamTaskOutput
    (Normal {| ok := true; response_status := code; response_text := text;
               content_type := type; response_json := json;
               reads := rs ++ [read_chunk (value ++ frag)] |}) timeoutMs w
  = streamTaskOutput
      (Normal {| ok := true; response_status := code; response_text := text;
                 content_type := type; response_json := json;
                 reads := rs ++ [read_chunk value] |}) timeoutMs w.
Proof.
  intros Hf. unfold streamTaskOutput.
  match goal with
  | |- match attempt (Normal ?a) ?w0 with _ => _ end
       = match attempt (Normal ?b) _ with _ => _ end =>
      assert (E : attempt (Normal a) w0 = attempt (Normal b) w0)
  end.
  { rewrite !attempt_ok by reflexivity.
    match goal with
    | |- bind (degraded ?a) _ _ = bind (degraded ?b) _ _ =>
        change (degraded a) with (degraded b)
    end.
    apply bind_ext. intros [r|] w1; [reflexivity|].
    cbn [reads]. apply bind_eq_left. apply read_loop_tail. exact Hf. }
  rewrite E. reflexivity.
Qed.

Lemma unterminated_last_line_is_dropped_witness :
  streamTaskOutput (Normal (sse_response cut_stream)) (number_of_literal (js "1000")) fresh
  = (Normal {| result_status := js "unknown"; result_output := Some (js "kept");
               result_costUsd := None; result_error := JNull |},
     {| state := {| outputBuffer := js "kept"; status := js "unknown";
                    error := JNull; costUsd := None |};
        calls := [core_info (js "kept")] |}).
Proof.
  refine (eq_trans
            (unterminated_last_line_is_dropped
               [read_chunk (ln "event: stdout" ++ ln "data: {'data':'kept'}")]
               (ln "event: complete") (js "data: {}")
               (number_of_literal (js "200")) (Normal [])
               (Some (js "text/event-stream"))
               (Throw (ErrorObject (js "SyntaxError") (js "Unexpected token")))
               (number_of_literal (js "1000")) fresh _) _).
  - apply no_newline_check. reflexivity.
  - reflexivity.
Defined.

(** ** The shape of a result *)

Section Results.

Context {NUM : Numeric}.

Lemma processSSEEvent_settled et d w :
  settled (state w) -> settled (state (snd (processSSEEvent et d w))).
Proof.
  unfold settled. intros [Hk Hu].
  unfold processSSEEvent. unfold_M. split_cases.
  all: cbn [snd state status error costUsd].
  all: first [ split; [exact Hk|exact Hu]
             | split; [reflexivity|intros Hc; discriminate Hc] ].
Qed.

Lemma settled_initial : settled initial_state.
Proof. split; [reflexivity|intros _; split; reflexivity]. Qed.

(** A result comes from the state of the stream, or from the JSON answer
    given in place of the stream. *)
Lemma attempt_result fetch w r w' :
  attempt fetch w = (Normal r, w') ->
  r = {| result_status := status (state w');
         result_output := match outputBuffer (state w') with
                          | [] => None
                          | _ :: _ => Some (outputBuffer (state w'))
                          end;
         result_costUsd := costUsd (state w');
         result_error := error (state w') |}
  \/ (result_status r = js "failed" /\ result_output r = None
      /\ result_costUsd r = None).
Proof.
  destruct fetch as [response|e]; [|discriminate].
  destruct (ok response) eqn:Hok.
  - rewrite (attempt_ok response w Hok). unfold degraded. unfold_M.
    assert (Hloop :
      (let (c, w1) := read_loop (reads response) [] w in
       match c with
       | Normal _ =>
           (Normal
              {| result_status := status (state w1);
                 result_output := match outputBuffer (state w1) with
                                  | [] => None
                                  | _ :: _ => Some (outputBuffer (state w1))
                                  end;
                 result_costUsd := costUsd (state w1);
                 result_error := error (state w1) |}, w1)
       | Throw e => (Throw e, w1)
       end) = (Normal r, w') ->
      r = {| result_status := status (state w');
             result_output := match outputBuffer (state w') with
                              | [] => None
                              | _ :: _ => Some (outputBuffer (state w'))
                              end;
             result_costUsd := costUsd (state w');
             result_error := error (state w') |}
      \/ (result_status r = js "failed" /\ result_output r = None
          /\ result_costUsd r = None)).
    { destruct (read_loop (reads response) [] w) as [[[]|e] w1]; [|discriminate].
      intros [= <- <-]. left. reflexivity. }
    destruct (includes _ _); [|exact Hloop].
    destruct (response_json response) as [j|e]; [|discriminate].
    destruct (Get j (js "error")) as [e|x]; [|discriminate].
    destruct (truthy e); [|exact Hloop].
    destruct (is_object e).
    + destruct e as [o|].
      * destruct (Get o (js "message")); [|discriminate].
        intros [= <- _]. right. repeat split.
      * intros [= <- _]. right. repeat split.
    + intros [= <- _]. right. repeat split.
  - unfold attempt. unfold_M. rewrite Hok. cbn [negb].
    destruct (response_text response); discriminate.
Qed.

Lemma streamTaskOutput_shape fetch timeoutMs w w' r :
  streamTaskOutput fetch timeoutMs w = (Normal r, w') ->
  (known_status (result_status r) = true \/ result_status r = js "timeout")
  /\ result_output r <> Some []
  /\ (result_status r = js "unknown" ->
        result_error r = JNull /\ result_costUsd r = None)
  /\ (result_status r = js "timeout" ->
        result_output r = None /\ result_costUsd r = None
        /\ result_error r = JString (timeout_message timeoutMs)).
Proof.
  unfold streamTaskOutput.
  pose proof (attempt_keeps (fun a b => settled (state a) -> settled (state b))
                (fun _ X => X) (fun _ _ _ X Y Z => Y (X Z))
                processSSEEvent_settled fetch
                {| state := initial_state; calls := calls w |} settled_initial)
    as Hs.
  destruct (attempt fetch _) as [[r0|e] w1] eqn:E.
  - intros [= <- <-]. cbn [snd] in Hs. destruct Hs as [Hk Hu].
    destruct (attempt_result _ _ _ _ E) as [->|[H1 [H2 H3]]].
    + cbn [result_status result_output result_costUsd result_error].
      split; [left; exact Hk|]. split; [|split].
      * destruct (outputBuffer (state w1)); discriminate.
      * exact Hu.
      * intros Hc. rewrite Hc in Hk. discriminate Hk.
    + rewrite H1, H2, H3. split; [left; reflexivity|].
      split; [discriminate|]. split; intros Hc; discriminate Hc.
  - destruct (is_abort e); [|discriminate].
    intros [= <- _]. cbn [result_status result_output result_costUsd result_error].
    split; [right; reflexivity|]. split; [discriminate|].
    split; [intros Hc; discriminate Hc|]. intros _. repeat split.
Qed.

End Results.

(** X11.  The shape of every result of [streamTaskOutput].  The status is
    [unknown], [completed], [failed] or [timeout]; the output is a non-empty
    text or absent, never the empty text; a result with status [unknown]
    carries no error and no cost; and a result with status [timeout] carries
    no output and no cost, only the text of the timeout: what was received
    before the abort is not part of it. *)
Theorem stream_results_are_well_formed `{Numeric}
    (fetch : completion Response) (timeoutMs : number) (w w' : World)
    (r : StreamResult) :
  streamTaskOutput fetch timeoutMs w = (Normal r, w') ->
  (known_status (result_status r) = true \/ result_status r = js "timeout")
  /\ result_output r <> Some []
  /\ (result_status r = js "unknown" ->
        result_error r = JNull /\ result_costUsd r = None)
  /\ (result_status r = js "timeout" ->
        result_output r = None /\ result_costUsd r = None
        /\ result_error r = JString (timeout_message timeoutMs)).
Proof. apply streamTaskOutput_shape. Qed.

Lemma stream_results_are_well_formed_witness :
  known_status (js "unknown") = true \/ js "unknown" = js "timeout".
Proof.
  exact (proj1 (stream_results_are_well_formed
                  (Normal (sse_response cut_stream)) (number_of_literal (js "1000"))
                  fresh _ _ eq_refl)).
Defined.

(** ** A JSON answer in place of a stream *)

Section JsonAnswer.

Context {NUM : Numeric}.

Lemma attempt_json type j rs w :
  includes type (js "application/json") = true ->
  attempt (Normal (accepted (Some type) (Normal j) rs)) w
  = (e <- lift (Get j (js "error")) ;;
     if truthy e then
       errorMsg <- (if is_object e
                    then match e with
                         | Some o => lift (Get o (js "message"))
                         | None => ret None
                         end
                    else ret e) ;;
       ret {| result_status := js "failed"; result_output := None;
              result_costUsd := None;
              result_error := or_else errorMsg (JString (js "Unknown error")) |}
     else attempt (Normal (accepted None (Normal j) rs))) w.
Proof.
  intros Hi. rewrite attempt_ok by reflexivity.
  unfold degraded. cbn [accepted content_type response_json]. rewrite Hi.
  unfold_M. destruct (Get j (js "error")) as [e|x]; [|reflexivity].
  destruct (truthy e).
  - destruct (is_object e); [|reflexivity].
    destruct e as [o|]; [|reflexivity].
    destruct (Get o (js "message")); reflexivity.
  - unfold attempt, degraded. unfold_M. reflexivity.
Qed.

End JsonAnswer.

(** X12.  A JSON answer in place of a stream.  When the accepted response
    declares a content type that holds [application/json], its body decides:
    a non-empty text as [error] gives the result [failed] with that text; an
    object as [error] gives [failed] with its truthy [message], or with
    [Unknown error]; in both cases no chunk is read, no call is made and the
    state stays the initial one.  A body whose [error] is absent or falsy is
    passed over and the response is read as an event stream, as if it had
    declared no content type.  A body that is [null] makes the call throw a
    [TypeError]. *)
Theorem json_answer_in_place_of_a_stream `{Numeric}
    (type : jsstring) (j : JSValue) (rs : list ReadResult)
    (timeoutMs : number) (w : World) :
  includes type (js "application/json") = true ->
  (forall s, Get j (js "error") = Normal (Some (JString s)) -> s <> [] ->
     streamTaskOutput (Normal (accepted (Some type) (Normal j) rs)) timeoutMs w
     = (Normal {| result_status := js "failed"; result_output := None;
                  result_costUsd := None; result_error := JString s |},
        {| state := initial_state; calls := calls w |}))
  /\ (forall m, Get j (js "error") = Normal (Some (JObject m)) ->
        streamTaskOutput (Normal (accepted (Some type) (Normal j) rs)) timeoutMs w
        = (Normal {| result_status := js "failed"; result_output := None;
                     result_costUsd := None;
                     result_error := or_else (lookup (js "message") m)
                                             (JString (js "Unknown error")) |},
           {| state := initial_state; calls := calls w |}))
  /\ (forall e, Get j (js "error") = Normal e -> truthy e = false ->
        streamTaskOutput (Normal (accepted (Some type) (Normal j) rs)) timeoutMs w
        = streamTaskOutput (Normal (accepted None (Normal j) rs)) timeoutMs w)
  /\ (j = JNull ->
        streamTaskOutput (Normal (accepted (Some type) (Normal j) rs)) timeoutMs w
        = (Throw (null_property (js "error")),
           {| state := initial_state; calls := calls w |})).
Proof.
  intros Hi. unfold streamTaskOutput. rewrite (attempt_json type j rs _ Hi).
  split; [|split; [|split]].
  - intros s Hg Hs. unfold_M. rewrite Hg.
    destruct s as [|c s]; [contradiction|]. reflexivity.
  - intros m Hg. unfold_M. rewrite Hg. reflexivity.
  - intros e Hg Ht. unfold bind at 1. unfold lift at 1. rewrite Hg, Ht.
    reflexivity.
  - intros ->. reflexivity.
Qed.

Lemma json_answer_in_place_of_a_stream_witness :
  streamTaskOutput
    (Normal (accepted (Some (js "application/json; charset=utf-8"))
               (Normal (JObject [(js "error", JObject [(js "code", JNull)])]))
               cut_stream))
    (number_of_literal (js "1000")) fresh
  = (Normal {| result_status := js "failed"; result_output := None;
               result_costUsd := None;
               result_error := JString (js "Unknown error") |},
     fresh).
Proof.
  apply (proj1 (proj2 (json_answer_in_place_of_a_stream
                         (js "application/json; charset=utf-8")
                         (JObject [(js "error", JObject [(js "code", JNull)])])
                         cut_stream (number_of_literal (js "1000")) fresh eq_refl))
           [(js "code", JNull)]).
  reflexivity.
Defined.

(** ** What the action reports *)

Section Reporting.

Context {NUM : Numeric}.

Lemma failure_comes_last_app a b :
  forallb is_log a = true -> failure_comes_last b = true ->
  failure_comes_last (a ++ b) = true.
Proof.
  intros Ha Hb. induction a as [|c a IH]; [exact Hb|].
  cbn [forallb] in Ha. apply andb_true_iff in Ha as [Hc Ha].
  cbn [app failure_comes_last]. destruct c; try discriminate Hc; apply IH; exact Ha.
Qed.

Lemma failure_comes_last_count l :
  failure_comes_last l = true -> (length (filter is_setFailed l) <= 1)%nat.
Proof.
  induction l as [|c l IH]; cbn [failure_comes_last filter]; [simpl; lia|].
  destruct (is_setFailed c).
  - destruct l; [simpl; lia|discriminate].
  - exact IH.
Qed.

Lemma stream_calls fetch timeoutMs before :
  exists added,
    calls (snd (streamTaskOutput fetch timeoutMs
                  {| state := initial_state; calls := before |}))
    = before ++ added
    /\ forallb is_log added = true.
Proof.
  exact (proj2 (streamTaskOutput_keeps extends extends_refl extends_trans
                  processSSEEvent_extends fetch timeoutMs
                  {| state := initial_state; calls := before |})).
Qed.

Lemma run_calls before submitted fetch duration :
  exists added,
    run before submitted fetch duration = before ++ added
    /\ failure_comes_last added = true.
Proof.
  unfold run. destruct submitted as [timeoutMs|e].
  - unfold bind at 1. unfold lift at 1. unfold report.
    destruct (stream_calls fetch timeoutMs before) as [added [Hc Hl]].
    unfold bind at 1.
    destruct (streamTaskOutput fetch timeoutMs _) as [[r|e] w1]; cbn [snd] in Hc.
    + unfold_M.
      destruct (result_output r), (result_costUsd r) as [c|];
        try destruct (toString_method c);
        destruct (str_eqb (result_status r) (js "failed"));
        try destruct (ToString _).
      all: cbn [calls]; rewrite Hc; rewrite <- !app_assoc.
      all: eexists; split; [reflexivity|].
      all: apply failure_comes_last_app; [exact Hl|reflexivity].
    + rewrite Hc, <- app_assoc. eexists. split; [reflexivity|].
      apply failure_comes_last_app; [exact Hl|reflexivity].
  - exists [core_setFailed (sanitize (message_of e))]. split; reflexivity.
Qed.


End Reporting.

(** X13.  The action is failed at most once, and last.  Whatever the
    inputs, the submission and the stream do, the calls [run] adds to those
    made before contain at most one call of [setFailed], and no call follows
    it. *)
Theorem failure_is_reported_at_most_once `{Numeric}
    (before : list CoreCall) (submitted : completion number)
    (fetch : completion Response) (duration : number) :
  exists added,
    run before submitted fetch duration = before ++ added
    /\ failure_comes_last added = true
    /\ (length (filter is_setFailed added) <= 1)%nat.
Proof.
  destruct (run_calls before submitted fetch duration) as [added [H1 H2]].
  exists added. split; [exact H1|]. split; [exact H2|].
  apply failure_comes_last_count. exact H2.
Qed.



(** ** Lines the decoder passes over *)

Section Skipping.

Context {NUM : Numeric}.

Lemma for_lines_filter lines pending w :
  for_lines lines pending w = for_lines (filter recognized lines) pending w.
Proof.
  revert pending w. induction lines as [|line rest IH]; intros pending w.
  - reflexivity.
  - cbn [filter for_lines]. unfold recognized at 1.
    destruct (startsWith line (js "event: ")) eqn:He.
    + cbn [orb for_lines]. rewrite He. apply IH.
    + destruct (startsWith line (js "data: ")) eqn:Hd; cbn [orb].
      * cbn [for_lines]. rewrite He, Hd. apply bind_ext. intros _ w'. apply IH.
      * apply IH.
Qed.

Lemma parseSSELines_lines lines remainder w :
  Forall (fun l => ~ In LF l) lines -> ~ In LF remainder ->
  parseSSELines (unlines lines ++ remainder) w
  = (for_lines lines [] ;;; ret remainder) w.
Proof.
  intros Hl Hr. unfold parseSSELines.
  rewrite split_unlines by assumption. rewrite removelast_snoc, last_snoc.
  reflexivity.
Qed.

End Skipping.

(** X16.  Lines that are neither [event: ] lines nor [data: ] lines count
    for nothing.  A buffer gives the same result, state and calls with
    those lines removed: blank lines, comments, other fields, field names
    without the space after the colon, lines that start with a space.  A
    buffer with no other complete lines returns its carry-over and changes
    nothing. *)
Theorem unrecognized_lines_are_passed_over `{Numeric}
    (lines : list jsstring) (remainder : jsstring) (w : World) :
  Forall (fun l => ~ In LF l) lines ->
  ~ In LF remainder ->
  parseSSELines (unlines lines ++ remainder) w
  = parseSSELines (unlines (filter recognized lines) ++ remainder) w
  /\ (filter recognized lines = [] ->
        parseSSELines (unlines lines ++ remainder) w = (Normal remainder, w)).
Proof.
  intros Hl Hr.
  assert (Hf : Forall (fun l => ~ In LF l) (filter recognized lines)).
  { rewrite Forall_forall in *. intros l Hin. apply filter_In in Hin as [Hin _].
    apply Hl. exact Hin. }
  rewrite (parseSSELines_lines lines remainder w Hl Hr).
  rewrite (parseSSELines_lines _ remainder w Hf Hr).
  unfold bind. rewrite (for_lines_filter lines [] w). split; [reflexivity|].
  intros ->. reflexivity.
Qed.

Lemma unrecognized_lines_are_passed_over_witness :
  parseSSELines
    (unlines [js ": keep-alive"; []; js "id: 7"; js "event:complete";
              jq "data:{'data':'x'}"; js " data: {}"; js "retry: 10"]
     ++ js "event: std") after_complete
  = (Normal (js "event: std"), after_complete).
Proof.
  apply (unrecognized_lines_are_passed_over
           [js ": keep-alive"; []; js "id: 7"; js "event:complete";
            jq "data:{'data':'x'}"; js " data: {}"; js "retry: 10"]
           (js "event: std") after_complete).
  - repeat constructor; apply no_newline_check; reflexivity.
  - apply no_newline_check. reflexivity.
  - reflexivity.
Defined.

(** ** The answer to the submission *)

Section SubmissionCheck.

Context {NUM : Numeric}.

Lemma outside_range statusCode :
  statusCode < 200 \/ 300 <= statusCode ->
  (statusCode <? 200) || (300 <=? statusCode) = true.
Proof.
  intros [Hlt|Hge]; apply orb_true_iff; [left|right].
  - apply N.ltb_lt. exact Hlt.
  - apply N.leb_le. exact Hge.
Qed.

Lemma inside_range statusCode :
  200 <= statusCode < 300 ->
  (statusCode <? 200) || (300 <=? statusCode) = false.
Proof.
  intros [Hge Hlt]. apply orb_false_iff. split.
  - apply N.ltb_ge. exact Hge.
  - apply N.leb_gt. exact Hlt.
Qed.

End SubmissionCheck.

(** X15.  The check of the answer to the submission.  With a status code
    outside 200-299 the program never goes on: it throws, and the message
    is [Task submission failed (code): ] followed by the [error] text of the
    body, or by [Unknown error] when the body is absent or has no [error].
    With a status code inside the range it goes on exactly when the body is
    an object with a truthy [task_id], and otherwise throws [Invalid
    response from API: missing task_id].  When the check throws, [run] adds
    one call, [setFailed] with the sanitized message, and the stream is
    never opened. *)
Theorem submission_is_checked `{Numeric} (statusCode : N) (result : JSValue) :
  (statusCode < 200 \/ 300 <= statusCode ->
     (exists e, check_submission statusCode result = Throw e)
     /\ (forall m s,
           result = JObject m -> lookup (js "error") m = Some (JString s) ->
           s <> [] ->
           check_submission statusCode result
           = Throw (ErrorObject (js "Error")
                      (js "Task submission failed (" ++ decimal statusCode
                       ++ js "): " ++ s)))
     /\ (result = JNull
         \/ (exists m, result = JObject m /\ lookup (js "error") m = None) ->
         check_submission statusCode result
         = Throw (ErrorObject (js "Error")
                    (js "Task submission failed (" ++ decimal statusCode
                     ++ js "): Unknown error"))))
  /\ (200 <= statusCode < 300 ->
        (forall taskId,
           check_submission statusCode result = Normal taskId
           <-> exists m, result = JObject m
                         /\ lookup (js "task_id") m = Some taskId
                         /\ truthy (Some taskId) = true)
        /\ (check_submission statusCode result = Throw missing_task_id
            \/ exists taskId, check_submission statusCode result = Normal taskId))
  /\ (forall e before timeoutMs fetch duration,
        check_submission statusCode result = Throw e ->
        run before (submitted_with statusCode result timeoutMs) fetch duration
        = before ++ [core_setFailed (sanitize (message_of e))]).
Proof.
  split; [|split].
  - intros Hout. apply outside_range in Hout.
    unfold check_submission. rewrite Hout. split; [|split].
    + destruct (Get _ (js "error")) as [e|x]; [|eexists; reflexivity].
      destruct (ToString _); eexists; reflexivity.
    + intros m s -> Hl Hs. cbn [or_else truthy Get]. rewrite Hl.
      destruct s as [|c s]; [contradiction|]. reflexivity.
    + intros [->|[m [-> Hl]]]; cbn [or_else truthy Get]; [|rewrite Hl]; reflexivity.
  - intros Hin. apply inside_range in Hin.
    unfold check_submission. rewrite Hin. split.
    + intros taskId. split.
      * destruct result as [| | | | |m]; cbn [Get]; try discriminate.
        destruct (lookup (js "task_id") m) as [v|] eqn:Hl; [|discriminate].
        destruct (truthy (Some v)) eqn:Ht; [|discriminate].
        intros [= <-]. exists m. repeat split; assumption.
      * intros [m [-> [Hl Ht]]]. cbn [Get]. rewrite Hl, Ht. reflexivity.
    + destruct result as [| | | | |m]; cbn [Get]; try (left; reflexivity).
      destruct (lookup (js "task_id") m) as [v|]; [|left; reflexivity].
      destruct (truthy (Some v)); [right; eexists|left]; reflexivity.
  - intros e before timeoutMs fetch duration He.
    unfold run, submitted_with. rewrite He. reflexivity.
Qed.

Lemma submission_is_checked_witness :
  check_submission 429 (JObject [(js "error", JString (js "rate limited"))])
  = Throw (ErrorObject (js "Error")
             (js "Task submission failed (429): rate limited")).
Proof.
  assert (Hout : 429 < 200 \/ 300 <= 429).
  { right. intros Hc. discriminate Hc. }
  apply (proj1 (proj2 (proj1 (submission_is_checked
                                429 (JObject [(js "error", JString (js "rate limited"))]))
                         Hout))
           [(js "error", JString (js "rate limited"))] (js "rate limited")).
  - reflexivity.
  - reflexivity.
  - discriminate.
Defined.

(** ** Faults on the way to the result *)

(** X17.  A refused connection fails the action with the answer of the
    server.  When the response of the stream endpoint is not [ok] and its
    body is read as the text [t], [streamTaskOutput] reads no chunk and
    throws [SSE connection failed (status): t]; [run] then makes one call,
    [setFailed] with that message sanitized, and sets no output. *)
Theorem refused_connection_fails_the_action `{Numeric}
    (response : Response) (t : jsstring) (before : list CoreCall)
    (timeoutMs duration : number) (w : World) :
  ok response = false ->
  response_text response = Normal t ->
  streamTaskOutput (Normal response) timeoutMs w
  = (Throw (ErrorObject (js "Error")
              (js "SSE connection failed ("
               ++ number_toString (response_status response) ++ js "): " ++ t)),
     {| state := initial_state; calls := calls w |})
  /\ run before (Normal timeoutMs) (Normal response) duration
     = before
       ++ [core_setFailed
             (sanitize (js "SSE connection failed ("
                        ++ number_toString (response_status response)
                        ++ js "): " ++ t))].
Proof.
  intros Hok Ht.
  assert (E : forall w0,
             streamTaskOutput (Normal response) timeoutMs w0
             = (Throw (ErrorObject (js "Error")
                         (js "SSE connection failed ("
                          ++ number_toString (response_status response)
                          ++ js "): " ++ t)),
                {| state := initial_state; calls := calls w0 |})).
  { intros w0. unfold streamTaskOutput, attempt. unfold_M.
    rewrite Hok, Ht. reflexivity. }
  split; [apply E|].
  unfold run, report. unfold bind at 1. unfold lift at 1. unfold bind at 1.
  rewrite E. reflexivity.
Qed.

Lemma refused_connection_fails_the_action_witness :
  run [] (Normal (number_of_literal (js "1000")))
    (Normal {| ok := false; response_status := number_of_literal (js "401");
               response_text := Normal (js "invalid token in Bearer sk-live-1234");
               content_type := None;
               response_json := Normal JNull;
               reads := cut_stream |})
    (number_of_literal (js "12"))
  = [core_setFailed (js "SSE connection failed (401): invalid token in Bearer ***")].
Proof.
  exact (proj2 (refused_connection_fails_the_action
                  {| ok := false; response_status := number_of_literal (js "401");
                     response_text := Normal (js "invalid token in Bearer sk-live-1234");
                     content_type := None;
                     response_json := Normal JNull;
                     reads := cut_stream |}
                  (js "invalid token in Bearer sk-live-1234") []
                  (number_of_literal (js "1000")) (number_of_literal (js "12"))
                  fresh eq_refl eq_refl)).
Defined.

(** X18.  A cost that is [null] fails the action.  [complete] events store
    whatever [costUsd] holds, [null] included; when the result carries the
    cost [null], [run] sets the outputs [result], [duration-ms] and
    [output], then throws on reading [toString] of [null], and the action
    is failed with the message of that [TypeError], whatever the status of
    the task. *)
Theorem null_cost_fails_the_action `{Numeric}
    (before : list CoreCall) (fetch : completion Response)
    (timeoutMs duration : number) (r : StreamResult) (w : World) :
  streamTaskOutput fetch timeoutMs {| state := initial_state; calls := before |}
  = (Normal r, w) ->
  result_costUsd r = Some JNull ->
  run before (Normal timeoutMs) fetch duration
  = calls w
    ++ [core_setOutput (js "result") (result_status r);
        core_setOutput (js "duration-ms") (number_toString duration)]
    ++ match result_output r with
       | Some o => [core_setOutput (js "output") o]
       | None => []
       end
    ++ [core_setFailed (js "Cannot read properties of null (reading 'toString')")].
Proof.
  intros Hs Hc. unfold run, report. unfold bind at 1. unfold lift at 1.
  unfold bind at 1. rewrite Hs. unfold_M. rewrite Hc.
  cbn [toString_method].
  change (sanitize (message_of (null_property (js "toString"))))
    with (js "Cannot read properties of null (reading 'toString')").
  destruct (result_output r); cbn [calls]; rewrite <- !app_assoc; reflexivity.
Qed.

Lemma null_cost_fails_the_action_witness :
  run [] (Normal (number_of_literal (js "1000")))
    (Normal (sse_response
               [read_chunk (ln "event: stdout" ++ ln "data: {'data':'done'}"
                            ++ ln "event: complete" ++ ln "data: {'costUsd':null}")]))
    (number_of_literal (js "12"))
  = [core_info (js "done"); core_info (js "[Stream] Task completed");
     core_setOutput (js "result") (js "completed");
     core_setOutput (js "duration-ms") (js "12");
     core_setOutput (js "output") (js "done");
     core_setFailed (js "Cannot read properties of null (reading 'toString')")].
Proof.
  exact (null_cost_fails_the_action
           [] (Normal (sse_response
                 [read_chunk (ln "event: stdout" ++ ln "data: {'data':'done'}"
                              ++ ln "event: complete" ++ ln "data: {'costUsd':null}")]))
           (number_of_literal (js "1000")) (number_of_literal (js "12"))
           {| result_status := js "completed"; result_output := Some (js "done");
              result_costUsd := Some JNull; result_error := JNull |}
           {| state := {| outputBuffer := js "done"; status := js "completed";
                          error := JNull; costUsd := Some JNull |};
              calls := [core_info (js "done");
                        core_info (js "[Stream] Task completed")] |}
           eq_refl eq_refl).
Defined.

(** ** Payloads as the interface declares them *)

Section Conforming.

Context {NUM : Numeric}.

Lemma processSSEEvent_returns et d w :
  conforms d -> exists w', processSSEEvent et d w = (Normal tt, w').
Proof.
  unfold conforms. intros Hc. unfold processSSEEvent.
  destruct (JSON_parse d) as [event|]; [|eexists; reflexivity].
  destruct (Hc event eq_refl) as [m [-> [Hd He]]]. unfold_M. cbn [Get].
  destruct (str_eqb et (js "start")); [eexists; reflexivity|].
  destruct (str_eqb et (js "stdout")).
  { destruct (lookup (js "data") m) as [[]|]; try contradiction;
      cbn [truthy]; try destruct s; eexists; reflexivity. }
  destruct (str_eqb et (js "stderr")).
  { destruct (lookup (js "data") m) as [[]|]; try contradiction;
      cbn [truthy]; try destruct s; eexists; reflexivity. }
  destruct (str_eqb et (js "complete")).
  { destruct (lookup (js "costUsd") m); eexists; reflexivity. }
  destruct (str_eqb et (js "error")); [|eexists; reflexivity].
  destruct (lookup (js "error") m) as [[]|]; try contradiction;
    cbn [state error or_else truthy]; try destruct s; eexists; reflexivity.
Qed.

Lemma for_lines_returns lines pending w :
  Forall (fun line => startsWith line (js "data: ") = true ->
                      conforms (substring line 6)) lines ->
  exists w', for_lines lines pending w = (Normal tt, w').
Proof.
  intros Hall. revert pending w.
  induction Hall as [|line rest Hline _ IH]; intros pending w.
  - eexists. reflexivity.
  - cbn [for_lines].
    destruct (startsWith line (js "event: ")); [apply IH|].
    destruct (startsWith line (js "data: ")); [|apply IH].
    unfold bind.
    destruct (processSSEEvent_returns pending (substring line 6) w (Hline eq_refl))
      as [w1 ->].
    apply IH.
Qed.

End Conforming.

(** X19.  Payloads of the declared shape never make the decoder throw.
    When a payload either is no JSON or parses to an object whose [data] and
    [error] are texts or absent, [processSSEEvent] returns, whatever the
    event type and the state; and a buffer whose [data: ] lines all carry
    such payloads is parsed to its end: [parseSSELines] returns the
    carry-over. *)
Theorem conforming_payloads_never_throw `{Numeric} :
  (forall et d w,
     conforms d -> exists w', processSSEEvent et d w = (Normal tt, w'))
  /\ (forall buffer w,
        Forall (fun line => startsWith line (js "data: ") = true ->
                            conforms (substring line 6))
               (removelast (split LF buffer)) ->
        exists w',
          parseSSELines buffer w = (Normal (last (split LF buffer) []), w')).
Proof.
  split; [exact processSSEEvent_returns|].
  intros buffer w Hall. unfold parseSSELines, bind.
  destruct (for_lines_returns _ [] w Hall) as [w1 ->].
  eexists. reflexivity.
Qed.

Lemma conforming_payloads_never_throw_witness :
  exists w',
    processSSEEvent (js "error") (jq "{'error':'boom','data':'x'}") fresh
    = (Normal tt, w').
Proof.
  apply (proj1 conforming_payloads_never_throw).
  intros event [= <-]. eexists. repeat split.
Defined.

(** ** A stream of whole events *)

Section WholeEvents.

Context {NUM : Numeric}.

Lemma read_loop_stdout_chunks payloadss textss rs w :
  Forall2 (Forall2 stdout_payload) payloadss textss ->
  terminal (status (state w)) = false ->
  read_loop (List.map (fun ps => read_chunk (unlines (stdout_lines ps))) payloadss
             ++ rs) [] w
  = read_loop rs []
      {| state := {| outputBuffer := outputBuffer (state w) ++ concat (concat textss);
                     status := status (state w);
                     error := error (state w);
                     costUsd := costUsd (state w) |};
         calls := calls w
                  ++ List.map core_info (filter nonempty (concat textss)) |}.
Proof.
  intros Hall. revert w.
  induction Hall as [|ps ts payloadss textss Hps _ IH]; intros w Ht.
  - destruct w as [[ob st er co] cl]. cbn. rewrite !app_nil_r. reflexivity.
  - cbn [List.map app read_loop]. unfold bind at 1.
    rewrite <- (app_nil_r (unlines (stdout_lines ps))).
    rewrite (parseSSELines_stdout ps ts [] w Hps (fun F => F)).
    unfold bind, read_state. cbn [state status]. rewrite Ht.
    rewrite IH by exact Ht.
    cbn [state calls outputBuffer status error costUsd concat].
    rewrite !concat_app, filter_app, map_app, <- !app_assoc. reflexivity.
Qed.

Lemma parseSSELines_complete d event c w :
  ~ In LF d ->
  JSON_parse d = Some event ->
  Get event (js "costUsd") = Normal c ->
  parseSSELines (unlines (complete_lines d)) w
  = (Normal [],
     {| state := {| outputBuffer := outputBuffer (state w);
                    status := js "completed";
                    error := error (state w);
                    costUsd := match c with
                               | Some v => Some v
                               | None => costUsd (state w)
                               end |};
        calls := calls w ++ [core_info (js "[Stream] Task completed")] |}).
Proof.
  intros Hd Hp Hg.
  rewrite <- (app_nil_r (unlines (complete_lines d))).
  rewrite parseSSELines_frames.
  - unfold complete_lines. cbn [decode].
    change (startsWith (js "event: complete") (js "event: ")) with true.
    cbv iota.
    rewrite (data_line_is_no_event_line _ (startsWith_app (js "data: ") d)).
    rewrite (startsWith_app (js "data: ") d).
    change (startsWith [] (js "event: ")) with false.
    change (startsWith [] (js "data: ")) with false.
    cbv iota. cbn [dispatch_all]. unfold bind.
    change (trim (skipn 7 (js "event: complete"))) with (js "complete").
    change (skipn 6 (js "data: " ++ d)) with d.
    rewrite (processSSEEvent_complete d w event c Hp Hg). reflexivity.
  - unfold complete_lines. repeat constructor.
    + apply no_newline_check. reflexivity.
    + intros Hin. apply in_app_or in Hin as [Hin|Hin]; [|exact (Hd Hin)].
      revert Hin. apply no_newline_check. reflexivity.
    + intros [].
  - intros [].
Qed.

End WholeEvents.

(** X20.  A stream of whole events, end to end.  When the chunks of an
    accepted event stream each hold whole [stdout] events (event line, data
    line, blank line; any number per chunk) and are followed by a chunk
    with a [complete] event, the result is [completed] with the texts of all
    [stdout] events concatenated in order as its output (absent when that
    text is empty), the [costUsd] of the [complete] payload as its cost and
    no error; each non-empty text is logged once, in order, then the
    completion; and nothing after the [complete] chunk is read. *)
Theorem whole_events_stream `{Numeric}
    (type : option jsstring) (body : completion JSValue)
    (payloadss textss : list (list jsstring)) (d : jsstring) (event : JSValue)
    (c : option JSValue) (rest : list ReadResult) (timeoutMs : number) (w : World) :
  (forall t, type = Some t -> includes t (js "application/json") = false) ->
  Forall2 (Forall2 stdout_payload) payloadss textss ->
  ~ In LF d ->
  JSON_parse d = Some event ->
  Get event (js "costUsd") = Normal c ->
  streamTaskOutput
    (Normal (accepted type body
               (List.map (fun ps => read_chunk (unlines (stdout_lines ps))) payloadss
                ++ read_chunk (unlines (complete_lines d)) :: rest)))
    timeoutMs w
  = (Normal {| result_status := js "completed";
               result_output := match concat (concat textss) with
                                | [] => None
                                | _ :: _ => Some (concat (concat textss))
                                end;
               result_costUsd := c;
               result_error := JNull |},
     {| state := {| outputBuffer := concat (concat textss);
                    status := js "completed";
                    error := JNull;
                    costUsd := c |};
        calls := calls w
                 ++ List.map core_info (filter nonempty (concat textss))
                 ++ [core_info (js "[Stream] Task completed")] |}).
Proof.
  intros Ht Hall Hd Hp Hg. unfold streamTaskOutput.
  rewrite attempt_ok by reflexivity.
  assert (E : forall w0, degraded (accepted type body
               (List.map (fun ps => read_chunk (unlines (stdout_lines ps))) payloadss
                ++ read_chunk (unlines (complete_lines d)) :: rest)) w0
              = (Normal None, w0)).
  { intros w0. unfold degraded. cbn [accepted content_type].
    destruct type as [t|]; [rewrite (Ht t eq_refl)|]; reflexivity. }
  unfold bind at 1. rewrite E. cbn [accepted reads].
  unfold bind at 1.
  rewrite (read_loop_stdout_chunks payloadss textss _ _ Hall) by reflexivity.
  cbn [read_loop]. unfold bind at 1. cbn [app].
  rewrite (parseSSELines_complete d event c _ Hd Hp Hg).
  unfold bind, read_state, ret.
  cbn [state calls outputBuffer status error costUsd initial_state terminal].
  change (terminal (js "completed")) with true. cbv iota.
  cbn [state calls outputBuffer status error costUsd].
  rewrite <- app_assoc. destruct c; reflexivity.
Qed.

Lemma whole_events_stream_witness :
  fst (streamTaskOutput
         (Normal (accepted (Some (js "text/event-stream")) (Throw abort_error)
                    [read_chunk (unlines (stdout_lines [jq "{'data':'a'}"; jq "{'data':'b'}"]));
                     read_chunk (unlines (stdout_lines [jq "{'data':'c'}"]));
                     read_chunk (unlines (complete_lines (jq "{'costUsd':0.05}")));
                     read_rejects abort_error]))
         (number_of_literal (js "1000")) fresh)
  = Normal {| result_status := js "completed";
              result_output := Some (js "abc");
              result_costUsd := Some (JNumber (number_of_literal (js "0.05")));
              result_error := JNull |}.
Proof.
  refine (f_equal fst
            (whole_events_stream
               (Some (js "text/event-stream")) (Throw abort_error)
               [[jq "{'data':'a'}"; jq "{'data':'b'}"]; [jq "{'data':'c'}"]]
               [[js "a"; js "b"]; [js "c"]]
               (jq "{'costUsd':0.05}")
               (JObject [(js "costUsd", JNumber (number_of_literal (js "0.05")))])
               (Some (JNumber (number_of_literal (js "0.05"))))
               [read_rejects abort_error] (number_of_literal (js "1000")) fresh
               _ _ _ eq_refl eq_refl)).
  - intros t [= <-]. reflexivity.
  - repeat constructor; try (apply no_newline_check; reflexivity);
      eexists; split; reflexivity.
  - apply no_newline_check. reflexivity.
Defined.

(** ** The event type of a padded line *)

Lemma trimStart_pad pad s :
  Forall (fun c => is_ws c = true) pad -> trimStart (pad ++ s) = trimStart s.
Proof.
  induction 1 as [|c pad Hc _ IH]; [reflexivity|].
  cbn [app trimStart]. rewrite Hc. exact IH.
Qed.

Lemma trimStart_head s : is_ws (hd 32 s) = false -> trimStart s = s.
Proof.
  destruct s as [|c s]; [reflexivity|]. cbn [hd trimStart]. intros ->. reflexivity.
Qed.

Lemma hd_rev (s : jsstring) d : hd d (rev s) = last s d.
Proof.
  induction s as [|c s IH] using rev_ind; [reflexivity|].
  rewrite rev_app_distr, last_snoc. reflexivity.
Qed.

Lemma trim_padded pad1 t pad2 :
  Forall (fun c => is_ws c = true) pad1 ->
  Forall (fun c => is_ws c = true) pad2 ->
  is_ws (hd 32 t) = false ->
  is_ws (last t 32) = false ->
  trim (pad1 ++ t ++ pad2) = t.
Proof.
  intros H1 H2 Hh Hl. unfold trim, trimEnd.
  rewrite (trimStart_pad pad1 _ H1).
  assert (Ht : trimStart (t ++ pad2) = t ++ pad2).
  { apply trimStart_head. destruct t as [|c t]; [discriminate Hh|exact Hh]. }
  rewrite Ht, rev_app_distr.
  rewrite trimStart_pad by (apply Forall_rev; exact H2).
  rewrite trimStart_head by (rewrite hd_rev; exact Hl).
  apply rev_involutive.
Qed.

(** X22.  The event type is what the [event: ] line holds between its
    white space.  When an [event: ] line holds a type [t] that starts and
    ends with a code unit that is no white space, with any white space
    before and after it (a carriage return before the newline, say), the
    [data: ] line that follows is dispatched with the type [t] itself. *)
Theorem event_type_is_trimmed `{Numeric}
    (pad1 t pad2 d remainder : jsstring) (w : World) :
  Forall (fun c => is_ws c = true) pad1 ->
  Forall (fun c => is_ws c = true) pad2 ->
  is_ws (hd 32 t) = false ->
  is_ws (last t 32) = false ->
  ~ In LF (pad1 ++ t ++ pad2) ->
  ~ In LF d ->
  ~ In LF remainder ->
  parseSSELines (unlines [js "event: " ++ pad1 ++ t ++ pad2; js "data: " ++ d]
                 ++ remainder) w
  = (processSSEEvent t d ;;; ret remainder) w.
Proof.
  intros H1 H2 Hh Hl Hline Hd Hr.
  rewrite parseSSELines_frames; [| |exact Hr].
  - cbn [decode].
    rewrite (startsWith_app (js "event: ") (pad1 ++ t ++ pad2)).
    rewrite (data_line_is_no_event_line _ (startsWith_app (js "data: ") d)).
    rewrite (startsWith_app (js "data: ") d).
    change (skipn 7 (js "event: " ++ pad1 ++ t ++ pad2)) with (pad1 ++ t ++ pad2).
    change (skipn 6 (js "data: " ++ d)) with d.
    match goal with
    | |- context [trim ?x] =>
        replace (trim x) with t by (symmetry; apply trim_padded; assumption)
    end.
    cbn [dispatch_all]. rewrite bind_assoc. apply bind_ext. intros _ w'.
    reflexivity.
  - constructor; [|constructor; [|constructor]].
    + intros Hin. apply in_app_or in Hin as [Hin|Hin]; [|exact (Hline Hin)].
      revert Hin. apply no_newline_check. reflexivity.
    + intros Hin. apply in_app_or in Hin as [Hin|Hin]; [|exact (Hd Hin)].
      revert Hin. apply no_newline_check. reflexivity.
Qed.

Lemma event_type_is_trimmed_witness :
  parseSSELines (unlines [js "event: " ++ js "  " ++ js "stdout" ++ [32; 13];
                          js "data: " ++ (jq "{'data':'x'}" ++ [13])]
                 ++ []) fresh
  = (Normal [],
     {| state := {| outputBuffer := js "x"; status := js "unknown";
                    error := JNull; costUsd := None |};
        calls := [core_info (js "x")] |}).
Proof.
  refine (eq_trans
            (event_type_is_trimmed (js "  ") (js "stdout") [32; 13]
               (jq "{'data':'x'}" ++ [13]) [] fresh _ _ _ _ _ _ _) _).
  - repeat constructor.
  - repeat constructor.
  - reflexivity.
  - reflexivity.
  - apply no_newline_check. reflexivity.
  - apply no_newline_check. reflexivity.
  - intros [].
  - reflexivity.
Defined.

(** ** The cost as the payload gives it *)

(** X23.  The cost is reported as the payload gives it, whatever its JSON
    type.  When the stream of an accepted response is one [complete] event
    whose payload has a [costUsd] member with a text of its own ([toString]
    returns), [run] logs the completion, sets the outputs [result] to
    [completed] and [duration-ms], sets the output [cost-usd] to that text,
    and logs the success: the number type of the member is declared, not
    checked, so a cost given as text is stored and reported like a number. *)
Theorem cost_is_reported_as_given `{Numeric}
    (before : list CoreCall) (type : option jsstring) (body : completion JSValue)
    (d : jsstring) (event v : JSValue) (t : jsstring) (rest : list ReadResult)
    (timeoutMs duration : number) :
  (forall ct, type = Some ct -> includes ct (js "application/json") = false) ->
  ~ In LF d ->
  JSON_parse d = Some event ->
  Get event (js "costUsd") = Normal (Some v) ->
  toString_method v = Normal t ->
  run before (Normal timeoutMs)
    (Normal (accepted type body (read_chunk (unlines (complete_lines d)) :: rest)))
    duration
  = before
    ++ [core_info (js "[Stream] Task completed");
        core_setOutput (js "result") (js "completed");
        core_setOutput (js "duration-ms") (number_toString duration);
        core_setOutput (js "cost-usd") t;
        core_info (js "Task completed successfully in "
                   ++ number_toString duration ++ js "ms")].
Proof.
  intros Ht Hd Hp Hg Hv.
  assert (E : forall w0,
            degraded (accepted type body
                        (read_chunk (unlines (complete_lines d)) :: rest)) w0
            = (Normal None, w0)).
  { intros w0. unfold degraded. cbn [accepted content_type].
    destruct type as [ct|]; [rewrite (Ht ct eq_refl)|]; reflexivity. }
  unfold run, report. unfold bind at 1. unfold lift at 1. unfold bind at 1.
  unfold streamTaskOutput. rewrite attempt_ok by reflexivity.
  unfold bind at 1. rewrite E. cbn [accepted reads read_loop].
  unfold bind at 1. unfold bind at 1. cbn [app].
  rewrite (parseSSELines_complete d event (Some v) _ Hd Hp Hg).
  unfold_M. cbn [state calls outputBuffer status error costUsd initial_state].
  change (terminal (js "completed")) with true. cbv iota.
  cbn [state calls outputBuffer status error costUsd result_status result_output
       result_costUsd result_error].
  rewrite Hv.
  change (str_eqb (js "completed") (js "failed")) with false. cbv iota.
  cbn [calls]. rewrite <- !app_assoc. reflexivity.
Qed.

Lemma cost_is_reported_as_given_witness :
  run [] (Normal (number_of_literal (js "1000")))
    (Normal (accepted (Some (js "text/event-stream")) (Throw abort_error)
               [read_chunk (unlines (complete_lines (jq "{'costUsd':'free'}")))]))
    (number_of_literal (js "12"))
  = [core_info (js "[Stream] Task completed");
     core_setOutput (js "result") (js "completed");
     core_setOutput (js "duration-ms") (js "12");
     core_setOutput (js "cost-usd") (js "free");
     core_info (js "Task completed successfully in 12ms")].
Proof.
  refine (cost_is_reported_as_given
            [] (Some (js "text/event-stream")) (Throw abort_error)
            (jq "{'costUsd':'free'}")
            (JObject [(js "costUsd", JString (js "free"))]) (JString (js "free"))
            (js "free") [] (number_of_literal (js "1000"))
            (number_of_literal (js "12")) _ _ eq_refl eq_refl eq_refl).
  - intros ct [= <-]. reflexivity.
  - apply no_newline_check. reflexivity.
Defined.
